(** * figure_fonts_checker: a shallow embedding of [src/figure_fonts_checker.py]

    The script builds a LaTeX document around the given images, compiles it
    with [platex] and [dvipdfmx], lists the fonts of the resulting PDF with
    [pdffonts], parses that listing with a regular expression and prints the
    font types, optionally filtered.

    Everything that is not code of the script (codecs, the Unicode character
    database, the file system, the three external programs, [glob], the
    compiler of user supplied regular expressions) is gathered in explicit
    records ([Unicode], [World]); the script itself is embedded as functions
    over a process state, in a state-and-exception monad. *)

From Stdlib Require Import NArith List Ascii String Bool Lia.
From stdpp Require Import base option list gmap strings.

Local Open Scope N_scope.

(** ** Python values *)

(** A Python [str] is a sequence of Unicode code points, a [bytes] object a
    sequence of bytes. *)
Abbreviation str := (list N).
Abbreviation bytes := (list Byte.byte).

(** [py "..."] is the Python string literal with the same (ASCII) text. *)
Definition py (s : string) : str :=
  List.map N_of_ascii (list_ascii_of_string s).

(** ** The Unicode character database

    [re] classifies the characters of a [str] with the Unicode database of
    the interpreter.  The ASCII part is written out below; the rest of the
    database is a parameter. *)
Record Unicode := {
  uni_isspace : N -> bool;    (* Py_UNICODE_ISSPACE beyond ASCII *)
  uni_isdecimal : N -> bool;  (* Py_UNICODE_ISDECIMAL beyond ASCII *)
  uni_isalnum : N -> bool;    (* Py_UNICODE_ISALNUM beyond ASCII *)
  uni_tolower : N -> N        (* Py_UNICODE_TOLOWER beyond ASCII *)
}.

(** The database that knows nothing beyond ASCII. *)
Definition ascii_only : Unicode :=
  {| uni_isspace := fun _ => false;
     uni_isdecimal := fun _ => false;
     uni_isalnum := fun _ => false;
     uni_tolower := fun c => c |}.

Definition between (lo hi c : N) : bool := (lo <=? c) && (c <=? hi).

Section CharacterClasses.
  Variable U : Unicode.

  (** [\s]: TAB, LF, VT, FF, CR, FS, GS, RS, US and SPACE in ASCII. *)
Definition is_space (c : N) : bool :=
    if c <? 128 then between 9 13 c || between 28 32 c else uni_isspace U c.

  (** [\d] *)
Definition is_digit (c : N) : bool :=
    if c <? 128 then between 48 57 c else uni_isdecimal U c.

  (** [\w]: alphanumeric or underscore. *)
Definition is_word (c : N) : bool :=
    if c <? 128
    then between 48 57 c || between 65 90 c || between 97 122 c || (c =? 95)
    else uni_isalnum U c.

Definition lower (c : N) : N :=
    if c <? 128 then (if between 65 90 c then c + 32 else c) else uni_tolower U c.
End CharacterClasses.

(** ** Regular expressions

    The fragment of [re] that [pdffonts_parse_pattern] is written in: single
    character tests, greedy repetition of a character test, concatenation
    and named groups. *)
Inductive cclass :=
| CDot                (* [.] without DOTALL: anything but a line feed *)
| CSpace              (* [\s] *)
| CWord               (* [\w] *)
| CDigit              (* [\d] *)
| CLit (c : N)        (* a literal character *)
| CLitI (c : N).      (* a literal character under IGNORECASE *)

Inductive regex :=
| REmpty
| RChar (c : cclass)
| RMany (min : nat) (c : cclass)   (* greedy [c{min,}] *)
| RSeq (r1 r2 : regex)
| RGroup (name : string) (r : regex).

Declare Scope regex_scope.
Delimit Scope regex_scope with regex.
Bind Scope regex_scope with regex.
Infix ">>" := RSeq (at level 60, right associativity) : regex_scope.

Definition cmatch (U : Unicode) (cl : cclass) (ch : N) : bool :=
  match cl with
  | CDot => negb (ch =? 10)
  | CSpace => is_space U ch
  | CWord => is_word U ch
  | CDigit => is_digit U ch
  | CLit c => ch =? c
  | CLitI c => lower U ch =? lower U c
  end.

(** The literal text [s], character by character. *)
Fixpoint literal (ignorecase : bool) (s : str) : regex :=
  match s with
  | [] => REmpty
  | c :: s' => RSeq (RChar (if ignorecase then CLitI c else CLit c)) (literal ignorecase s')
  end.

(** The groups of a match object, by name. *)
Abbreviation groupdict := (gmap string str).

Section Matcher.
  Variable U : Unicode.
  Context {R : Type}.

  (** Greedy repetition with backtracking: the longest run is tried first,
      then shorter ones, down to [min] characters. *)
Fixpoint many (c : cclass) (min : nat) (s : str) (k : str -> option R) : option R :=
    let stop := match min with O => k s | S _ => None end in
    match s with
    | ch :: s' =>
        if cmatch U c ch then
          match many c (Nat.pred min) s' k with
          | Some r => Some r
          | None => stop
          end
        else stop
    | [] => stop
    end.

  (** The backtracking matcher, in continuation passing style: [run r s g k]
      matches [r] at the start of [s] and hands the rest of the input and the
      groups to [k]; the first success in priority order wins. *)
Fixpoint run (r : regex) (s : str) (g : groupdict)
      (k : str -> groupdict -> option R) : option R :=
    match r with
    | REmpty => k s g
    | RChar c =>
        match s with
        | ch :: s' => if cmatch U c ch then k s' g else None
        | [] => None
        end
    | RMany min c => many c min s (fun s' => k s' g)
    | RSeq r1 r2 => run r1 s g (fun s' g' => run r2 s' g' k)
    | RGroup name r1 =>
        run r1 s g (fun s' g' => k s' (<[name := take (length s - length s') s]> g'))
    end.
End Matcher.

(** [pattern.match(s)]: a match anchored at the start of [s], which need not
    reach its end; [None] is Python's [None]. *)
Definition re_match (U : Unicode) (r : regex) (s : str) : option groupdict :=
  run U r s ∅ (fun _ g => Some g).

(** [output_pattern = re.compile(r"[\r\n]+")] is only used through [split]:
    [re_split_eol] is [output_pattern.split]. *)
Definition is_eol (c : N) : bool := (c =? 13) || (c =? 10).

Fixpoint split_from (in_sep : bool) (cur : str) (s : str) : list str :=
  match s with
  | [] => [cur]
  | c :: s' =>
      if is_eol c
      then (if in_sep then split_from true [] s' else cur :: split_from true [] s')
      else split_from false (cur ++ [c]) s'
  end.

Definition re_split_eol (s : str) : list str := split_from false [] s.

(** [pdffonts_parse_pattern].  The pattern is compiled with [re.VERBOSE], so
    the white space and the [#] comments of its text are dropped: the type
    group [(?P<type>type .+)] is [type.+]; and with [re.IGNORECASE], so its
    four literal letters match in either case. *)
Definition pdffonts_parse_pattern : regex :=
  (RGroup "name" (RMany 1 CDot) >>
   RMany 1 CSpace >>
   RGroup "type" (literal true (py "type") >> RMany 1 CDot) >>
   RMany 2 CSpace >>
   RGroup "emb" (RMany 1 CWord) >> RMany 1 CSpace >>
   RGroup "sub" (RMany 1 CWord) >> RMany 1 CSpace >>
   RGroup "uni" (RMany 1 CWord) >>
   RMany 1 CSpace >>
   RGroup "object_id" (RMany 1 CDigit >> RMany 1 CSpace >> RMany 1 CDigit))%regex.

(** The two comprehensions at the end of [check_font_type]: every chunk is
    matched, and the [type] group of every match is kept. *)
Definition include_fonts (U : Unicode) (output : list str) : list str :=
  omap (fun out => m ← re_match U pdffonts_parse_pattern out; m !! "type"%string) output.

(** ** Exceptions, outcomes and the process state *)

Inductive exn :=
| OSError (op : string)            (* raised by the operating system interface *)
| CalledProcessError               (* [check_output]: non-zero exit status *)
| RuntimeError (msg : string)
| UnboundLocalError (var : string)
| TypeError (msg : string)
| KeyError (key : string)
| ValueError (msg : string)
| AttributeError (name : string)
| ReError.                         (* [re.error] *)

Inductive outcome (A : Type) :=
| Return (a : A)
| Raise (e : exn).
Arguments Return {A} a.
Arguments Raise {A} e.

(** What the script can observe and change of its process: the working
    directory, the open file descriptors, the data written to files (newest
    last) and the lines printed. *)
Record Proc := {
  cwd : str;
  open_fds : gset nat;
  written : list (str * str);
  stdout : list str
}.

(** A computation over a state [S] that returns or raises; the state
    survives an exception. *)
Definition M (S A : Type) : Type := S -> outcome A * S.

#[global] Instance M_ret {S} : MRet (M S) := fun A a s => (Return a, s).
#[global] Instance M_bind {S} : MBind (M S) := fun A B f m s =>
  match m s with
  | (Return a, s') => f a s'
  | (Raise e, s') => (Raise e, s')
  end.

Definition raise {S A} (e : exn) : M S A := fun s => (Raise e, s).

(** [try: body finally: fin].  The [finally] block runs on every exit of the
    body; an exception it raises replaces the outcome of the body. *)
Definition try_finally {S A} (body : M S A) (fin : M S unit) : M S A := fun s =>
  let '(r, s1) := body s in
  match fin s1 with
  | (Return _, s2) => (r, s2)
  | (Raise e, s2) => (Raise e, s2)
  end.

(** Local variables that a function may read before they are bound live in a
    frame [F] next to the process state. *)
Definition in_proc {F A} (m : M Proc A) : M (Proc * F) A := fun '(p, fr) =>
  let '(r, p') := m p in (r, (p', fr)).

Definition assign {F} (upd : F -> F) : M (Proc * F) unit := fun '(p, fr) =>
  (Return tt, (p, upd fr)).

Definition local {F A} (name : string) (get : F -> option A) : M (Proc * F) A :=
  fun '(p, fr) =>
    match get fr with
    | Some a => (Return a, (p, fr))
    | None => (Raise (UnboundLocalError name), (p, fr))
    end.

Definition with_frame {F A} (fr : F) (m : M (Proc * F) A) : M Proc A := fun p =>
  let '(r, (p', _)) := m (p, fr) in (r, p').

(** ** The world outside the script *)

(** How a child process ended. *)
Inductive run_result :=
| Exited (status : Z) (out : bytes)
| NotStarted.                       (* the program could not be run *)

(** The two implementations of [os.path]: [posixpath], and [ntpath] on
    Windows. *)
Inductive flavour := Posix | Windows.

Record World := {
  unicode : Unicode;
  (* the module that [os.path] stands for on this platform *)
  os_path : flavour;
  (* [bytes.decode(enc)]; [None] is UnicodeDecodeError *)
  decode : string -> bytes -> option str;
  (* [tempfile.mkdtemp()]; [None] is OSError *)
  mkdtemp_result : option str;
  (* the name chosen by [tempfile.mkstemp(suffix=".txt", dir=d)]; [None] is OSError *)
  mkstemp_result : str -> option str;
  (* whether [open(name, "w")] succeeds *)
  open_ok : str -> bool;
  (* whether the n-th [write] of the run succeeds *)
  write_ok : nat -> bool;
  getcwd_ok : bool;
  chdir_ok : str -> bool;
  (* [os.path.abspath(path)] in the working directory given first *)
  abspath : str -> str -> str;
  (* the child process started with the given argument vector *)
  spawn : list str -> run_result;
  (* [os.path.exists] when [make_image_pdf] asks *)
  path_exists : str -> bool;
  (* [glob.glob] *)
  glob : str -> list str;
  (* [re.compile(pattern, flag)], as the [match] of the compiled pattern says
     whether it matched; the flag is [re.IGNORECASE] or 0; [None] is re.error *)
  re_compile : str -> bool -> option (str -> bool);
  (* whether [log_level.upper()] names a level of [logging] *)
  known_level : str -> bool
}.

(** ** The operating system interface *)

Definition os_open (w : World) (name : str) : M Proc nat := fun p =>
  if open_ok w name then
    let fd := fresh (open_fds p) in
    (Return fd, {| cwd := cwd p; open_fds := {[fd]} ∪ open_fds p;
                   written := written p; stdout := stdout p |})
  else (Raise (OSError "open"), p).

Definition os_close (fd : nat) : M Proc unit := fun p =>
  if decide (fd ∈ open_fds p) then
    (Return tt, {| cwd := cwd p; open_fds := open_fds p ∖ {[fd]};
                   written := written p; stdout := stdout p |})
  else (Raise (OSError "close"), p).

Definition os_getcwd (w : World) : M Proc str := fun p =>
  if getcwd_ok w then (Return (cwd p), p) else (Raise (OSError "getcwd"), p).

Definition os_chdir (w : World) (d : str) : M Proc unit := fun p =>
  if chdir_ok w d then
    (Return tt, {| cwd := d; open_fds := open_fds p;
                   written := written p; stdout := stdout p |})
  else (Raise (OSError "chdir"), p).

(** [f.write(data)] on the file [name]. *)
Definition file_write (w : World) (name data : str) : M Proc unit := fun p =>
  if write_ok w (length (written p)) then
    (Return tt, {| cwd := cwd p; open_fds := open_fds p;
                   written := written p ++ [(name, data)]; stdout := stdout p |})
  else (Raise (OSError "write"), p).

Definition tempfile_mkdtemp (w : World) : M Proc str := fun p =>
  match mkdtemp_result w with
  | Some d => (Return d, p)
  | None => (Raise (OSError "mkdtemp"), p)
  end.

(** [tempfile.mkstemp]: the new file is returned open, as a descriptor. *)
Definition tempfile_mkstemp (w : World) (dir : str) : M Proc (nat * str) := fun p =>
  match mkstemp_result w dir with
  | Some name =>
      let fd := fresh (open_fds p) in
      (Return (fd, name), {| cwd := cwd p; open_fds := {[fd]} ∪ open_fds p;
                             written := written p; stdout := stdout p |})
  | None => (Raise (OSError "mkstemp"), p)
  end.

(** [subprocess.call(cmd, stdout=DEVNULL, stderr=DEVNULL)] *)
Definition subprocess_call (w : World) (cmd : list str) : M Proc Z := fun p =>
  match spawn w cmd with
  | Exited status _ => (Return status, p)
  | NotStarted => (Raise (OSError "exec"), p)
  end.

(** [subprocess.check_output(cmd)] *)
Definition subprocess_check_output (w : World) (cmd : list str) : M Proc bytes := fun p =>
  match spawn w cmd with
  | Exited status out =>
      if (status =? 0)%Z then (Return out, p) else (Raise CalledProcessError, p)
  | NotStarted => (Raise (OSError "exec"), p)
  end.

Definition print (line : str) : M Proc unit := fun p =>
  (Return tt, {| cwd := cwd p; open_fds := open_fds p;
                 written := written p; stdout := stdout p ++ [line] |}).

(** [with open(name, "w") as f: body]: the file is closed when the body is
    left, also by an exception. *)
Definition with_open {A} (w : World) (name : str) (body : M Proc A) : M Proc A :=
  f ← os_open w name;
  try_finally body (os_close f).

(** ** The script *)

Definition nl : str := [10].

Definition LATEX_TEMPLATE_START : str :=
  nl ++ py "\documentclass[a4paper]{{jarticle}}" ++ nl ++
  py "\usepackage{{graphicx}}" ++ nl ++ nl ++
  py "\begin{{document}}" ++ nl.

(** [LATEX_TEMPLATE_FIGURE.format(image_file)]: the doubled braces of the
    template become single ones and [{0}] the argument. *)
Definition LATEX_TEMPLATE_FIGURE_format (image_file : str) : str :=
  nl ++ py "\begin{figure}" ++ nl ++
  py "    \includegraphics{" ++ image_file ++ py "}" ++ nl ++
  py "\end{figure}" ++ nl.

Definition LATEX_TEMPLATE_END : str :=
  nl ++ py "\end{{document}}" ++ nl.

(** [p.rfind(c)]: the index of the last [c] of [p]. *)
Fixpoint rfind (c : N) (p : str) : option nat :=
  match p with
  | [] => None
  | x :: p' =>
      match rfind c p' with
      | Some i => Some (S i)
      | None => if x =? c then Some 0%nat else None
      end
  end.

(** [sepIndex + 1], where [sepIndex] is the result of an [rfind], -1 when
    there is no occurrence. *)
Definition index_after (sepIndex : option nat) : nat :=
  match sepIndex with Some i => S i | None => 0%nat end.

(** [filenameIndex] of [genericpath._splitext(p, sep, altsep, extsep)]:
    [sepIndex = p.rfind(sep)], then, where the module has an [altsep],
    [sepIndex = max(sepIndex, p.rfind(altsep))], and
    [filenameIndex = sepIndex + 1].  [posixpath] has [sep = "/"] and no
    [altsep]; [ntpath] has [sep = "\\"] and [altsep = "/"]. *)
Definition filename_index (fl : flavour) (p : str) : nat :=
  match fl with
  | Posix => index_after (rfind 47 p)
  | Windows => Nat.max (index_after (rfind 92 p)) (index_after (rfind 47 p))
  end.

(** [os.path.splitext]: the extension starts at the last dot of the last
    path component, leading dots of that component apart
    ([dotIndex > sepIndex] is [filenameIndex <= dotIndex]). *)
Definition splitext (fl : flavour) (p : str) : str * str :=
  let filenameIndex := filename_index fl p in
  match rfind 46 p with
  | Some dotIndex =>
      if (filenameIndex <=? dotIndex)%nat &&
         existsb (fun c => negb (c =? 46))
                 (take (dotIndex - filenameIndex) (drop filenameIndex p))
      then (take dotIndex p, drop dotIndex p)
      else (p, [])
  | None => (p, [])
  end.

Definition convert_ext (fl : flavour) (base_name ext : str) : str :=
  let base := fst (splitext fl base_name) in
  base ++ py "." ++ ext.

(** [to_str]: the first of the encodings that decodes [text]; Python's
    [None] (here [None]) when the loop ends without a [return]. *)
Definition encoding : list string := ["sjis"; "utf8"]%string.

Fixpoint to_str_loop (w : World) (encs : list string) (text : bytes) : option str :=
  match encs with
  | [] => None
  | enc :: encs' =>
      match decode w enc text with
      | Some s => Some s
      | None => to_str_loop w encs' text
      end
  end.

Definition to_str (w : World) (text : bytes) : option str :=
  to_str_loop w encoding text.

(** [image_file.replace("\\", "/")] *)
Definition replace_backslash (s : str) : str :=
  List.map (fun c => if c =? 92 then 47 else c) s.

(** The loop that writes one figure per image. *)
Fixpoint write_figures (w : World) (file_name : str) (image_files : list str) : M Proc unit :=
  match image_files with
  | [] => mret tt
  | image_file :: rest =>
      here ← (fun p => (Return (cwd p), p));
      let image_file := abspath w here image_file in
      let image_file := replace_backslash image_file in
      file_write w file_name (LATEX_TEMPLATE_FIGURE_format image_file);;
      write_figures w file_name rest
  end.

(** The [with open(file_name, "w") as f:] block of [make_image_pdf]. *)
Definition write_document (w : World) (file_name : str) (image_files : list str)
  : M Proc unit :=
  with_open w file_name
    (file_write w file_name LATEX_TEMPLATE_START;;
     write_figures w file_name image_files;;
     file_write w file_name LATEX_TEMPLATE_END).

(** The locals of [make_image_pdf] that its [finally] block reads. *)
Record pdf_frame := { v_fd : option nat; v_cwd : option str }.

Definition make_image_pdf (w : World) (image_files : list str) : M Proc str :=
  tmp_dir ← tempfile_mkdtemp w;
  with_frame {| v_fd := None; v_cwd := None |}
    (try_finally
       ('(fd, file_name) ← in_proc (tempfile_mkstemp w tmp_dir);
        assign (fun fr => {| v_fd := Some fd; v_cwd := v_cwd fr |});;
        in_proc (write_document w file_name image_files);;
        here ← in_proc (os_getcwd w);
        assign (fun fr => {| v_fd := v_fd fr; v_cwd := Some here |});;
        in_proc (os_chdir w tmp_dir);;
        status ← in_proc (subprocess_call w [py "platex"; file_name]);
        (if (status =? 0)%Z then
           let dvi_file := convert_ext (os_path w) file_name (py "dvi") in
           in_proc (subprocess_call w [py "dvipdfmx"; dvi_file]);; mret tt
         else mret tt);;
        let pdf_file := convert_ext (os_path w) file_name (py "pdf") in
        if path_exists w pdf_file then mret pdf_file
        else raise (RuntimeError "Failed to create pdf files"))
       (fd ← local "fd" v_fd;
        in_proc (os_close fd);;
        here ← local "cwd" v_cwd;
        in_proc (os_chdir w here))).

(** [output_pattern.split(output)]: a [TypeError] when [output] is [None]. *)
Definition output_pattern_split {S} (output : option str) : M S (list str) :=
  match output with
  | Some s => mret (re_split_eol s)
  | None => raise (TypeError "expected string or bytes-like object")
  end.

Definition check_font_type (w : World) (image_files : list str) : M Proc (list str) :=
  pdf_file ← make_image_pdf w image_files;
  output ← subprocess_check_output w [py "pdffonts"; pdf_file];
  let output := to_str w output in
  output ← output_pattern_split output;
  mret (include_fonts (unicode w) output).

(** ** Wildcard expansion

    [for f in image_files:] iterates by index over a list that its body
    changes.  The loop is written once, over entries of any type [A] that
    carry a file name ([val]); [main] runs it on the names themselves, the
    proofs also on names tagged with where they come from. *)

(** ["*" in f or "?" in f] *)
Definition has_wildcard (f : str) : bool :=
  existsb (fun c => c =? 42) f || existsb (fun c => c =? 63) f.

(** The list iterator: the list, the index of the next entry, and (for the
    proofs) the entries that [f] was bound to so far. *)
Record iteration (A : Type) := {
  items : list A;
  pos : nat;
  examined : list A
}.
Arguments items {A} _.
Arguments pos {A} _.
Arguments examined {A} _.

Section WildcardLoop.
  Context {A : Type} (val : A -> str) (mk : str -> A) (globber : str -> list str).

  (** [l.remove(x)]: the first entry equal to [x] goes; [None] is the
      ValueError of a list without one. *)
Fixpoint list_remove (x : str) (l : list A) : option (list A) :=
    match l with
    | [] => None
    | y :: l' =>
        if decide (val y = x) then Some l'
        else l'' ← list_remove x l'; Some (y :: l'')
    end.

  (** One turn of the loop; [None] when the iterator is exhausted. *)
Definition loop_step (it : iteration A) : option (outcome (iteration A)) :=
    f ← items it !! pos it;
    Some (if has_wildcard (val f) then
            match list_remove (val f) (items it) with
            | Some l =>
                Return {| items := l ++ List.map mk (globber (val f));
                          pos := S (pos it);
                          examined := examined it ++ [f] |}
            | None => Raise (ValueError "list.remove(x): x not in list")
            end
          else
            Return {| items := items it; pos := S (pos it);
                      examined := examined it ++ [f] |}).

  (** The loop, for at most [fuel] turns; [None] when it is still running
      after them. *)
Fixpoint loop (fuel : nat) (it : iteration A) : option (outcome (iteration A)) :=
    match loop_step it with
    | None => Some (Return it)
    | Some (Raise e) => Some (Raise e)
    | Some (Return it') =>
        match fuel with
        | O => None
        | S fuel' => loop fuel' it'
        end
    end.

Definition expand (fuel : nat) (l : list A) : option (outcome (iteration A)) :=
    loop fuel {| items := l; pos := 0; examined := [] |}.
End WildcardLoop.

(** The loop of [main], on the file names themselves. *)
Definition expand_wildcards (w : World) (fuel : nat) (image_files : list str)
  : option (outcome (iteration str)) :=
  expand id id (glob w) fuel image_files.

(** ** Reporting *)

(** A format string: text and named replacement fields. *)
Inductive piece :=
| Text (s : str)
| Field (name : string).

(** ["{f}: {font_type}"] *)
Definition label_template : list piece :=
  [Field "f"; Text (py ": "); Field "font_type"].

(** [template.format] with unpacked positional and keyword arguments, for a template with named fields
    only: positional arguments are not looked at, and a name that is not a
    keyword argument is a [KeyError]. *)
Fixpoint str_format (template : list piece) (kwargs : gmap string str) : outcome str :=
  match template with
  | [] => Return []
  | Text s :: rest =>
      match str_format rest kwargs with
      | Return t => Return (s ++ t)
      | Raise e => Raise e
      end
  | Field name :: rest =>
      match kwargs !! name with
      | None => Raise (KeyError name)
      | Some v =>
          match str_format rest kwargs with
          | Return t => Return (v ++ t)
          | Raise e => Raise e
          end
      end
  end.

(** [locals()] inside the reporting loop of [main], restricted to the
    variables that hold strings (and [type], rendered as [str] does): the
    template names no other.  [f] is bound only when the wildcard loop ran
    at least one turn. *)
Definition main_locals (f type : option str) (log_level font_type : str)
  : gmap string str :=
  let d : gmap string str :=
    <["font_type"%string := font_type]>
      (<["log_level"%string := log_level]>
         (<["type"%string := default (py "None") type]> ∅)) in
  match f with
  | Some v => <["f"%string := v]> d
  | None => d
  end.

Definition lift_outcome {S A} (r : outcome A) : M S A := fun s => (r, s).

(** [if type:] *)
Definition truthy (type : option str) : bool :=
  match type with
  | Some (_ :: _) => true
  | _ => false
  end.

(** The [if type:] block before the pipeline: [font_pattern] is bound (to the
    [match] of the compiled pattern) exactly when [type] is true. *)
Definition compile_filter (w : World) (type : option str) (ignorecase : bool)
  : M Proc (option (str -> bool)) :=
  if truthy type then
    match re_compile w (default [] type) ignorecase with
    | Some font_pattern => mret (Some font_pattern)
    | None => raise ReError
    end
  else mret None.

(** The loop over [font_types]. *)
Fixpoint report (font_pattern : option (str -> bool)) (f type : option str)
    (log_level : str) (font_types : list str) : M Proc unit :=
  match font_types with
  | [] => mret tt
  | font_type :: rest =>
      match font_pattern with
      | Some matches =>
          if matches font_type then
            (* print("{f}: {font_type}".format( *locals())) *)
            line ← lift_outcome (str_format label_template ∅);
            print line
          else mret tt
      | None =>
          (* print("{f}: {font_type}".format( **locals())) *)
          line ← lift_outcome
                   (str_format label_template (main_locals f type log_level font_type));
          print line
      end;;
      report font_pattern f type log_level rest
  end.

(** [main] after the command line is parsed.  [None]: the wildcard loop is
    still running after [fuel] turns. *)
Definition main (w : World) (fuel : nat) (image_files : list str)
    (type : option str) (ignorecase : bool) (log_level : str)
  : Proc -> option (outcome unit * Proc) := fun p =>
  if negb (known_level w log_level) then Some (Raise (AttributeError "logging"), p)
  else
    match expand_wildcards w fuel image_files with
    | None => None
    | Some (Raise e) => Some (Raise e, p)
    | Some (Return it) =>
        let image_files := items it in
        let f := last (examined it) in
        Some ((font_pattern ← compile_filter w type ignorecase;
               font_types ← check_font_type w image_files;
               report font_pattern f type log_level font_types) p)
    end.

(** ** Example worlds

    A world in which every step of the pipeline succeeds, used to run the
    script on concrete inputs.  Its codecs decode pure ASCII text and reject
    everything else (as both real codecs do for the byte 0x80); its regular
    expression compiler reads a pattern as plain text, which is what [re]
    does for the patterns without metacharacters used below. *)

Definition bytes_of (s : string) : bytes :=
  List.map byte_of_ascii (list_ascii_of_string s).

Definition ascii_codec (text : bytes) : option str :=
  if forallb (fun b => Byte.to_N b <? 128) text
  then Some (List.map Byte.to_N text) else None.

Definition level_names : list str :=
  [py "critical"; py "fatal"; py "error"; py "warning"; py "warn";
   py "info"; py "debug"; py "notset"].

Definition demo_spawn (listing : bytes) (converter_status : Z) (cmd : list str)
  : run_result :=
  match cmd with
  | prog :: _ =>
      if decide (prog = py "pdffonts") then Exited 0 listing
      else if decide (prog = py "dvipdfmx") then Exited converter_status []
      else Exited 0 []
  | [] => NotStarted
  end.

Definition demo_world (listing : bytes) (converter_status : Z) (pdf_made : bool)
  : World :=
  {| unicode := ascii_only;
     os_path := Posix;
     decode := fun _ text => ascii_codec text;
     mkdtemp_result := Some (py "/tmp/tmpq1w2e3");
     mkstemp_result := fun d => Some (d ++ py "/tmpa9b8c7.txt");
     open_ok := fun _ => true;
     write_ok := fun _ => true;
     getcwd_ok := true;
     chdir_ok := fun _ => true;
     abspath := fun here path => here ++ py "/" ++ path;
     spawn := demo_spawn listing converter_status;
     path_exists := fun _ => pdf_made;
     glob := fun pat =>
       if decide (pat = py "*.jpg") then [py "b.jpg"; py "c.jpg"] else [];
     re_compile := fun pat ignorecase =>
       Some (fun s => bool_decide (is_Some (re_match ascii_only (literal ignorecase pat) s)));
     known_level := fun l =>
       bool_decide (List.map (lower ascii_only) l ∈ level_names) |}.

Definition demo_proc : Proc :=
  {| cwd := py "/home/user/paper"; open_fds := {[0%nat; 1%nat; 2%nat]};
     written := []; stdout := [] |}.

(** The example world with other programs and other directories: [run] is
    what starting a program gives, [enter] says which directories
    [os.chdir] can enter. *)
Definition example_world (run : list str -> run_result) (enter : str -> bool)
    (pdf_made : bool) : World :=
  let w := demo_world [] 0 pdf_made in
  {| unicode := unicode w;
     os_path := os_path w;
     decode := decode w;
     mkdtemp_result := mkdtemp_result w;
     mkstemp_result := mkstemp_result w;
     open_ok := open_ok w;
     write_ok := write_ok w;
     getcwd_ok := getcwd_ok w;
     chdir_ok := enter;
     abspath := abspath w;
     spawn := run;
     path_exists := path_exists w;
     glob := glob w;
     re_compile := re_compile w;
     known_level := known_level w |}.

(** A world in which the caller's directory cannot be entered again once
    it was left (it was removed, or closed to the user, in the meantime):
    only the temporary directory can be entered. *)
Definition no_way_back (pdf_made : bool) : World :=
  example_world (demo_spawn [] 0)
                (fun d => bool_decide (d = py "/tmp/tmpq1w2e3")) pdf_made.

(** A world in which the program [missing] is not installed. *)
Definition world_without (missing : str) (pdf_made : bool) : World :=
  example_world (fun cmd => if decide (cmd !! 0%nat = Some missing) then NotStarted
                            else demo_spawn [] 0 cmd)
                (fun _ => true) pdf_made.

Definition lines (l : list string) : bytes :=
  flat_map (fun s => bytes_of s ++ [Byte.x0a]) l.

Definition listing_Type1C : bytes :=
  lines ["name                                 type              emb sub uni object ID";
         "------------------------------------ ----------------- --- --- --- ---------";
         "ABCDEF+Helvetica Type1C  yes yes no       12  0"]%string.

Definition listing_type1C : bytes :=
  lines ["name                                 type              emb sub uni object ID";
         "------------------------------------ ----------------- --- --- --- ---------";
         "ABCDEF+Helvetica type1C  yes yes no       12  0"]%string.

(** ** Example chunks *)

Definition chunk_truetype : str :=
  py "Arial             TrueType               yes yes yes      12  0".

Definition chunk_type1 : str :=
  py "Arial             Type 1                 yes yes yes      12  0".





(** ** Definitions used to state the properties *)

(** The characters that separate the components of a path: [sep] and,
    under [ntpath], [altsep]. *)
Definition is_sep (fl : flavour) (c : N) : bool :=
  match fl with
  | Posix => c =? 47
  | Windows => (c =? 92) || (c =? 47)
  end.

(** A name of one path component: it holds no separator. *)
Definition no_sep (fl : flavour) (s : str) : Prop :=
  Forall (fun c => is_sep fl c = false) s.




(** The strings a regular expression matches in full. *)
Fixpoint lang (U : Unicode) (r : regex) (t : str) : Prop :=
  match r with
  | REmpty => t = []
  | RChar c => ∃ ch, t = [ch] ∧ cmatch U c ch = true
  | RMany min c => (min ≤ length t)%nat ∧ Forall (fun ch => cmatch U c ch = true) t
  | RSeq r1 r2 => ∃ t1 t2, t = t1 ++ t2 ∧ lang U r1 t1 ∧ lang U r2 t2
  | RGroup _ r1 => lang U r1 t
  end.


(** A computation that leaves the working directory, the open descriptors
    and the printed lines as it found them, however it ends. *)
Definition keeps_process {A} (m : M Proc A) : Prop :=
  ∀ p, cwd (snd (m p)) = cwd p ∧ open_fds (snd (m p)) = open_fds p ∧
       stdout (snd (m p)) = stdout p.

(** The process after some more lines were printed. *)
Definition print_all (lines : list str) (p : Proc) : Proc :=
  {| cwd := cwd p; open_fds := open_fds p; written := written p;
     stdout := stdout p ++ lines |}.

(** The line printed for a font type. *)
Definition labelled (label font_type : str) : str :=
  label ++ py ": " ++ font_type.

(** Where an entry of the list comes from: the [i]-th argument of the
    command line, or a [glob] result. *)
Inductive origin :=
| Arg (i : nat)
| Globbed.

Definition tag_args (l : list str) : list (origin * str) :=
  imap (fun i x => (Arg i, x)) l.

(** The loop of [main] on tagged names: the tags play no part in it. *)
Definition expand_tagged (w : World) (fuel : nat) (image_files : list str)
  : option (outcome (iteration (origin * str))) :=
  expand snd (fun x => (Globbed, x)) (glob w) fuel (tag_args image_files).

Definition untag (it : iteration (origin * str)) : iteration str :=
  {| items := List.map snd (items it); pos := pos it;
     examined := List.map snd (examined it) |}.

Definition untag_outcome (r : outcome (iteration (origin * str)))
  : outcome (iteration str) :=
  match r with
  | Return it => Return (untag it)
  | Raise e => Raise e
  end.

(** What stays true from turn to turn of the loop on the arguments [l],
    for the argument [a] at index [i] and the argument [b] after it: the
    entries still to come are a tail of the arguments followed by [glob]
    results; the arguments examined so far lie before that tail; and once
    argument [i] was examined, argument [i+1] lies before the tail too, was
    not examined, and its name stands before the iterator. *)
Definition skip_inv (l : list str) (i : nat) (a b : str)
    (it : iteration (origin * str)) : Prop :=
  ∃ (n : nat) (gs : list (origin * str)),
    drop (pos it) (items it) = drop n (tag_args l) ++ gs ∧
    Forall (fun t => t.1 = Globbed) gs ∧
    (∀ m x, (Arg m, x) ∈ examined it → (m < n)%nat) ∧
    ((Arg i, a) ∈ examined it →
     (S i < n)%nat ∧ (∀ x, (Arg (S i), x) ∉ examined it) ∧
     b ∈ List.map snd (take (pos it) (items it))).

(** What stays true from turn to turn of the loop on the arguments [l],
    for the argument [a] at index [i] and the argument [c] two places
    after it: the entries still to come are a tail of the arguments
    followed by [glob] results; the arguments examined so far lie before
    that tail; and once argument [i] was examined, argument [i+2] was
    examined too or is the first entry of the tail. *)
Definition resume_inv (l : list str) (i : nat) (a c : str)
    (it : iteration (origin * str)) : Prop :=
  ∃ (n : nat) (gs : list (origin * str)),
    drop (pos it) (items it) = drop n (tag_args l) ++ gs ∧
    Forall (fun t => t.1 = Globbed) gs ∧
    (∀ m x, (Arg m, x) ∈ examined it → (m < n)%nat) ∧
    ((Arg i, a) ∈ examined it →
     (Arg (S (S i)), c) ∈ examined it ∨ n = S (S i)).

(** [binds U r t g g']: [r] matches the whole of [t], and the groups [g]
    before the match are [g'] after it. *)
Fixpoint binds (U : Unicode) (r : regex) (t : str) (g g' : groupdict) : Prop :=
  match r with
  | REmpty => t = [] ∧ g' = g
  | RChar c => (∃ ch, t = [ch] ∧ cmatch U c ch = true) ∧ g' = g
  | RMany min c =>
      ((min ≤ length t)%nat ∧ Forall (fun ch => cmatch U c ch = true) t) ∧ g' = g
  | RSeq r1 r2 =>
      ∃ t1 t2 g1, t = t1 ++ t2 ∧ binds U r1 t1 g g1 ∧ binds U r2 t2 g1 g'
  | RGroup name r1 => ∃ g1, binds U r1 t g g1 ∧ g' = <[name := t]> g1
  end.

(** A font type that starts with the letters t, y, p, e in either case and
    goes on after them. *)
Definition type_prefixed (U : Unicode) (t : str) : bool :=
  match t with
  | c1 :: c2 :: c3 :: c4 :: _ :: _ =>
      (lower U c1 =? 116) && (lower U c2 =? 121) &&
      (lower U c3 =? 112) && (lower U c4 =? 101)
  | _ => false
  end.

(** [t] occurs in [s] as a run of consecutive characters. *)
Definition occurs_in (t s : str) : Prop := ∃ pre post, s = pre ++ t ++ post.

(** At least [n] characters, all of one class. *)
Definition run_of (p : N -> bool) (n : nat) (t : str) : Prop :=
  (n ≤ length t)%nat ∧ Forall (fun c => p c = true) t.

Definition not_lf (c : N) : bool := negb (c =? 10).

(** A chunk that starts with a row of the listing: a name, a type that
    starts with the letters t, y, p, e, three flag words and two integers,
    with white space between them (two characters at least after the
    type), none of it across a line feed. *)
Definition row_shaped (U : Unicode) (s : str) : Prop :=
  ∃ name g1 ty g2 emb g3 sub g4 uni g5 d1 g6 d2 rest,
    s = name ++ g1 ++ ty ++ g2 ++ emb ++ g3 ++ sub ++ g4 ++ uni ++ g5 ++
        d1 ++ g6 ++ d2 ++ rest ∧
    run_of not_lf 1 name ∧ run_of (is_space U) 1 g1 ∧
    type_prefixed U ty = true ∧ run_of not_lf 1 (drop 4 ty) ∧
    run_of (is_space U) 2 g2 ∧
    run_of (is_word U) 1 emb ∧ run_of (is_space U) 1 g3 ∧
    run_of (is_word U) 1 sub ∧ run_of (is_space U) 1 g4 ∧
    run_of (is_word U) 1 uni ∧ run_of (is_space U) 1 g5 ∧
    run_of (is_digit U) 1 d1 ∧ run_of (is_space U) 1 g6 ∧
    run_of (is_digit U) 1 d2.

(** The writes that make up the document for the images [image_files],
    seen from the directory [here], into the file [file_name]. *)
Definition document (w : World) (here file_name : str) (image_files : list str)
  : list (str * str) :=
  (file_name, LATEX_TEMPLATE_START) ::
  List.map (fun image_file =>
              (file_name,
               LATEX_TEMPLATE_FIGURE_format
                 (replace_backslash (abspath w here image_file))))
           image_files ++
  [(file_name, LATEX_TEMPLATE_END)].

(** How many entries of a list hold a wildcard. *)
Definition wild_count (l : list str) : nat :=
  length (List.filter has_wildcard l).

(** A world whose directory holds two files named [*a] and [?a]: both
    names match both patterns. *)
Definition star_world : World :=
  {| unicode := ascii_only;
     os_path := Posix;
     decode := fun _ text => ascii_codec text;
     mkdtemp_result := Some (py "/tmp/tmpq1w2e3");
     mkstemp_result := fun d => Some (d ++ py "/tmpa9b8c7.txt");
     open_ok := fun _ => true;
     write_ok := fun _ => true;
     getcwd_ok := true;
     chdir_ok := fun _ => true;
     abspath := fun here path => here ++ py "/" ++ path;
     spawn := demo_spawn [] 0;
     path_exists := fun _ => true;
     glob := fun pat =>
       if decide (pat = py "*a") then [py "*a"; py "?a"]
       else if decide (pat = py "?a") then [py "*a"; py "?a"]
       else [];
     re_compile := fun pat ignorecase =>
       Some (fun s => bool_decide (is_Some (re_match ascii_only (literal ignorecase pat) s)));
     known_level := fun l =>
       bool_decide (List.map (lower ascii_only) l ∈ level_names) |}.

(** * Properties *)

(** Unfolding the monad and the operating system interface. *)
Ltac unfold_script :=
  unfold make_image_pdf, with_frame, try_finally, in_proc, assign, local, raise,
    tempfile_mkdtemp, tempfile_mkstemp, os_getcwd, os_chdir, os_close,
    subprocess_call, mbind, M_bind, mret, M_ret.

(** ** What a match of the parser guarantees *)

Section Soundness.
  Variable U : Unicode.

Lemma many_sound {R} (c : cclass) (s : str) :
    ∀ (min : nat) (k : str -> option R) (res : R),
      many U c min s k = Some res →
      ∃ t s', s = t ++ s' ∧ (min ≤ length t)%nat ∧
              Forall (fun ch => cmatch U c ch = true) t ∧ k s' = Some res.
  Proof.
    induction s as [|ch s IH]; intros min k res H; simpl in H.
    - destruct min; [|discriminate].
      exists [], []. repeat split; auto.
    - destruct (cmatch U c ch) eqn:Hc.
      + destruct (many U c (Nat.pred min) s k) as [r|] eqn:Hm.
        * inversion H; subst r.
          destruct (IH _ _ _ Hm) as (t & s' & -> & Hlen & Hall & Hk).
          exists (ch :: t), s'. repeat split; simpl; auto; lia.
        * destruct min; [|discriminate].
          exists [], (ch :: s). repeat split; auto.
      + destruct min; [|discriminate].
        exists [], (ch :: s). repeat split; auto.
  Qed.

Lemma run_sound {R} (r : regex) :
    ∀ (s : str) (g : groupdict) (k : str -> groupdict -> option R) (res : R),
      run U r s g k = Some res →
      ∃ t s' g', s = t ++ s' ∧ lang U r t ∧ k s' g' = Some res.
  Proof.
    induction r as [|c|min c|r1 IH1 r2 IH2|name r1 IH1]; intros s g k res H; simpl in H.
    - exists [], s, g. simpl. auto.
    - destruct s as [|ch s]; [discriminate|].
      destruct (cmatch U c ch) eqn:Hc; [|discriminate].
      exists [ch], s, g. repeat split; simpl; eauto.
    - apply many_sound in H as (t & s' & -> & Hlen & Hall & Hk).
      exists t, s', g. repeat split; auto.
    - apply IH1 in H as (t1 & s1 & g1 & -> & H1 & H).
      apply IH2 in H as (t2 & s2 & g2 & -> & H2 & H).
      exists (t1 ++ t2), s2, g2. rewrite <- app_assoc. repeat split; auto.
      exists t1, t2. auto.
    - apply IH1 in H as (t1 & s1 & g1 & -> & H1 & H).
      eexists t1, s1, _. repeat split; eauto.
  Qed.



End Soundness.

(** ** Which chunks the parser accepts *)

Lemma many_complete {R} (U : Unicode) (c : cclass) (t : str) :
  ∀ (min : nat) (s' : str) (k : str -> option R),
    (min ≤ length t)%nat → Forall (fun ch => cmatch U c ch = true) t →
    is_Some (k s') → is_Some (many U c min (t ++ s') k).
Proof.
  induction t as [|ch t IH]; intros min s' k Hlen Hall Hk; simpl in *.
  - assert (min = 0%nat) by lia. subst min.
    destruct s' as [|ch s']; simpl; [exact Hk|].
    destruct (cmatch U c ch); [|exact Hk].
    destruct (many U c 0 s' k); [eauto|exact Hk].
  - inversion Hall as [|? ? Hch Hall']; subst. rewrite Hch.
    destruct (IH (Nat.pred min) s' k ltac:(lia) Hall' Hk) as [r ->]. eauto.
Qed.

(** The matcher finds a match whenever there is one: if a prefix of the
    input is in the language and the continuation accepts what follows,
    the run succeeds (not always with that prefix). *)
Lemma run_complete {R} (U : Unicode) (r : regex) :
  ∀ (t s' : str) (g : groupdict) (k : str -> groupdict -> option R),
    lang U r t → (∀ g', is_Some (k s' g')) → is_Some (run U r (t ++ s') g k).
Proof.
  induction r as [|c|min c|r1 IH1 r2 IH2|name r1 IH1]; intros t s' g k Hl Hk; simpl in *.
  - subst t. apply Hk.
  - destruct Hl as (ch & -> & Hc). simpl. rewrite Hc. apply Hk.
  - destruct Hl as [Hlen Hall]. apply many_complete; auto.
  - destruct Hl as (t1 & t2 & -> & H1 & H2). rewrite <- app_assoc.
    apply IH1; [exact H1|]. intros g'. apply IH2; [exact H2|exact Hk].
  - apply IH1; [exact Hl|]. intros g'. apply Hk.
Qed.

Lemma type_prefixed_split (U : Unicode) (ty : str) :
  type_prefixed U ty = true →
  ∃ c1 c2 c3 c4 more,
    ty = [c1] ++ [c2] ++ [c3] ++ [c4] ++ more ∧ more ≠ [] ∧
    cmatch U (CLitI 116) c1 = true ∧ cmatch U (CLitI 121) c2 = true ∧
    cmatch U (CLitI 112) c3 = true ∧ cmatch U (CLitI 101) c4 = true.
Proof.
  destruct ty as [|c1 [|c2 [|c3 [|c4 [|c5 more]]]]]; try discriminate.
  simpl. intros H.
  apply andb_true_iff in H as [H H4]. apply andb_true_iff in H as [H H3].
  apply andb_true_iff in H as [H1 H2].
  exists c1, c2, c3, c4, (c5 :: more).
  split; [reflexivity|]. split; [discriminate|]. auto.
Qed.

(** What the parser matches starts with a row of the listing. *)
Lemma match_is_row (U : Unicode) (chunk : str) (m : groupdict) :
  re_match U pdffonts_parse_pattern chunk = Some m → row_shaped U chunk.
Proof.
  unfold re_match. intros H.
  apply run_sound in H as (t & s' & g' & -> & Hl & _).
  unfold pdffonts_parse_pattern in Hl.
  change (py "type") with [116; 121; 112; 101] in Hl.
  cbn [lang literal] in Hl.
  destruct Hl as (name & t1 & -> & Hname & Hl).
  destruct Hl as (g1 & t2 & -> & Hg1 & Hl).
  destruct Hl as (ty & t3 & -> & Hty & Hl).
  destruct Hty as (lit & more & -> & Hlit & Hmore).
  destruct Hlit as (l1 & r1 & -> & (c1 & -> & Hc1) & Hlit).
  destruct Hlit as (l2 & r2 & -> & (c2 & -> & Hc2) & Hlit).
  destruct Hlit as (l3 & r3 & -> & (c3 & -> & Hc3) & Hlit).
  destruct Hlit as (l4 & r4 & -> & (c4 & -> & Hc4) & ->).
  destruct Hl as (g2 & t4 & -> & Hg2 & Hl).
  destruct Hl as (emb & t5 & -> & Hemb & Hl).
  destruct Hl as (g3 & t6 & -> & Hg3 & Hl).
  destruct Hl as (sub & t7 & -> & Hsub & Hl).
  destruct Hl as (g4 & t8 & -> & Hg4 & Hl).
  destruct Hl as (uni & t9 & -> & Huni & Hl).
  destruct Hl as (g5 & oid & -> & Hg5 & Hl).
  destruct Hl as (d1 & t10 & -> & Hd1 & (g6 & d2 & -> & Hg6 & Hd2)).
  exists name, g1, (([c1] ++ [c2] ++ [c3] ++ [c4] ++ []) ++ more), g2, emb, g3, sub,
    g4, uni, g5, d1, g6, d2, s'.
  split; [rewrite <- !app_assoc; reflexivity|].
  split; [exact Hname|]. split; [exact Hg1|]. split.
  { destruct Hmore as [Hlen _]. destruct more as [|c5 more]; [simpl in Hlen; lia|].
    simpl. simpl in Hc1, Hc2, Hc3, Hc4.
    unfold lower at 2 in Hc1. unfold lower at 2 in Hc2.
    unfold lower at 2 in Hc3. unfold lower at 2 in Hc4.
    simpl in Hc1, Hc2, Hc3, Hc4. rewrite Hc1, Hc2, Hc3, Hc4. reflexivity. }
  split; [exact Hmore|].
  repeat split; first [apply Hg2 | apply Hemb | apply Hg3 | apply Hsub | apply Hg4
                      | apply Huni | apply Hg5 | apply Hd1 | apply Hg6 | apply Hd2].
Qed.

(** Every chunk that starts with a row of the listing is matched. *)
Lemma row_is_matched (U : Unicode) (chunk : str) :
  row_shaped U chunk → is_Some (re_match U pdffonts_parse_pattern chunk).
Proof.
  intros (name & g1 & ty & g2 & emb & g3 & sub & g4 & uni & g5 & d1 & g6 & d2 & rest
          & -> & Hname & Hg1 & Hty & Hmore & Hg2 & Hemb & Hg3 & Hsub & Hg4 & Huni
          & Hg5 & Hd1 & Hg6 & Hd2).
  apply type_prefixed_split in Hty
    as (c1 & c2 & c3 & c4 & more & -> & Hne & Hc1 & Hc2 & Hc3 & Hc4).
  simpl in Hmore.
  replace (name ++ g1 ++ ([c1] ++ [c2] ++ [c3] ++ [c4] ++ more) ++ g2 ++ emb ++ g3 ++
           sub ++ g4 ++ uni ++ g5 ++ d1 ++ g6 ++ d2 ++ rest)
    with ((name ++ g1 ++ (([c1] ++ [c2] ++ [c3] ++ [c4] ++ []) ++ more) ++ g2 ++ emb ++
           g3 ++ sub ++ g4 ++ uni ++ g5 ++ d1 ++ g6 ++ d2) ++ rest)
    by (rewrite <- !app_assoc; reflexivity).
  unfold re_match. apply run_complete; [|eauto].
  unfold pdffonts_parse_pattern.
  change (py "type") with [116; 121; 112; 101].
  cbn [lang literal].
  exists name, (g1 ++ (([c1] ++ [c2] ++ [c3] ++ [c4] ++ []) ++ more) ++ g2 ++ emb ++
                g3 ++ sub ++ g4 ++ uni ++ g5 ++ d1 ++ g6 ++ d2).
  split; [reflexivity|]. split; [exact Hname|].
  eexists g1, _. split; [reflexivity|]. split; [exact Hg1|].
  eexists (([c1] ++ [c2] ++ [c3] ++ [c4] ++ []) ++ more), _.
  split; [reflexivity|]. split.
  { exists ([c1] ++ [c2] ++ [c3] ++ [c4] ++ []), more. split; [reflexivity|]. split.
    - eexists [c1], _. split; [reflexivity|]. split; [eauto|].
      eexists [c2], _. split; [reflexivity|]. split; [eauto|].
      eexists [c3], _. split; [reflexivity|]. split; [eauto|].
      eexists [c4], _. split; [reflexivity|]. split; [eauto|reflexivity].
    - exact Hmore. }
  eexists g2, _. split; [reflexivity|]. split; [exact Hg2|].
  eexists emb, _. split; [reflexivity|]. split; [exact Hemb|].
  eexists g3, _. split; [reflexivity|]. split; [exact Hg3|].
  eexists sub, _. split; [reflexivity|]. split; [exact Hsub|].
  eexists g4, _. split; [reflexivity|]. split; [exact Hg4|].
  eexists uni, _. split; [reflexivity|]. split; [exact Huni|].
  eexists g5, _. split; [reflexivity|]. split; [exact Hg5|].
  eexists d1, _. split; [reflexivity|]. split; [exact Hd1|].
  eexists g6, d2. split; [reflexivity|]. split; [exact Hg6|exact Hd2].
Qed.

(** The parser does not match the synthetic TrueType row: its only ["Type"]
    follows the letter [e], not white space. *)
Lemma truetype_chunk_not_parsed :
  re_match ascii_only pdffonts_parse_pattern chunk_truetype = None.
Proof. vm_compute. reflexivity. Qed.

(** C2, as the code has it: whatever the Unicode database, the synthetic
    TrueType row is not matched and yields no font record; the same row with
    the type column [Type 1] is matched, and its type field is the column
    text with its padding, the last two blanks apart. *)
Theorem parser_needs_type_prefix (U : Unicode) :
  re_match U pdffonts_parse_pattern chunk_truetype = None ∧
  include_fonts U [chunk_truetype] = [] ∧
  include_fonts U [chunk_type1] = [py "Type 1               "].
Proof. repeat split; vm_compute; reflexivity. Qed.




(** ** Decoding *)

(** C9: [to_str] returns the sjis decoding when there is one, else the utf8
    decoding when there is one, else [None]. *)
Theorem to_str_first_decoding (w : World) (text : bytes) :
  to_str w text =
  match decode w "sjis" text with
  | Some s => Some s
  | None =>
      match decode w "utf8" text with
      | Some s => Some s
      | None => None
      end
  end.
Proof.
  unfold to_str, encoding. simpl.
  destruct (decode w "sjis" text); [reflexivity|].
  destruct (decode w "utf8" text); reflexivity.
Qed.

(** ** Resources of [make_image_pdf] *)

Lemma keeps_ret {A} (a : A) : keeps_process (mret a : M Proc A).
Proof. intros p. repeat split. Qed.

Lemma keeps_bind {A B} (m : M Proc A) (f : A -> M Proc B) :
  keeps_process m → (∀ a, keeps_process (f a)) → keeps_process (m ≫= f).
Proof.
  intros Hm Hf p. unfold mbind, M_bind.
  specialize (Hm p). destruct (m p) as [[a|e] p1]; simpl in *.
  - destruct (Hf a p1) as (H1 & H2 & H3). rewrite H1, H2, H3. exact Hm.
  - exact Hm.
Qed.

Lemma keeps_file_write (w : World) (name data : str) :
  keeps_process (file_write w name data).
Proof. intros p. unfold file_write. destruct (write_ok w _); repeat split. Qed.

Lemma keeps_write_figures (w : World) (name : str) (image_files : list str) :
  keeps_process (write_figures w name image_files).
Proof.
  induction image_files as [|f rest IH]; simpl.
  - apply keeps_ret.
  - apply keeps_bind; [intros p; repeat split|]. intros here.
    apply keeps_bind; [apply keeps_file_write|]. intros _. exact IH.
Qed.

Lemma close_fresh (X : gset nat) : ({[fresh X]} ∪ X) ∖ {[fresh X]} = X.
Proof.
  pose proof (is_fresh X) as Hfresh. apply set_eq. intros x.
  rewrite elem_of_difference, elem_of_union, elem_of_singleton.
  split; [intros [[->|Hx] Hne]; [contradiction|exact Hx]|].
  intros Hx. split; [right; exact Hx|]. intros ->. contradiction.
Qed.

Lemma fresh_is_open (X Y : gset nat) : Y = {[fresh X]} ∪ X → fresh X ∈ Y.
Proof. intros ->. apply elem_of_union. left. apply elem_of_singleton. reflexivity. Qed.

Lemma keeps_with_open {A} (w : World) (name : str) (body : M Proc A) :
  keeps_process body → keeps_process (with_open w name body).
Proof.
  intros Hb p. unfold with_open, mbind, M_bind, os_open, try_finally, os_close.
  destruct (open_ok w name); [|repeat split]. simpl.
  match goal with |- context [body ?q] => specialize (Hb q); destruct (body q) as [r p1] end.
  simpl in Hb. destruct Hb as (Hc & Hf & Hs).
  rewrite decide_True by (apply (fresh_is_open _ _ Hf)).
  simpl. rewrite Hc, Hf, Hs. split; [reflexivity|]. split; [apply close_fresh|reflexivity].
Qed.

Lemma keeps_write_document (w : World) (name : str) (image_files : list str) :
  keeps_process (write_document w name image_files).
Proof.
  apply keeps_with_open.
  apply keeps_bind; [apply keeps_file_write|]. intros _.
  apply keeps_bind; [apply keeps_write_figures|]. intros _.
  apply keeps_file_write.
Qed.

(** The caller's directory cannot be entered again: [make_image_pdf] ends in
    the [OSError] of the [os.chdir(cwd)] of its [finally] block, and the
    process is left in the temporary directory, with the PDF file made. *)
Lemma make_image_pdf_strands_process :
  cwd demo_proc = py "/home/user/paper" ∧
  path_exists (no_way_back true) (py "/tmp/tmpq1w2e3/tmpa9b8c7.pdf") = true ∧
  fst (make_image_pdf (no_way_back true) [py "fig.png"] demo_proc)
  = Raise (OSError "chdir") ∧
  cwd (snd (make_image_pdf (no_way_back true) [py "fig.png"] demo_proc))
  = py "/tmp/tmpq1w2e3".
Proof. repeat split; vm_compute; reflexivity. Qed.

(** C5: however [make_image_pdf] ends, by a return or by any exception, no
    descriptor that it opened stays open.  The working directory is the
    caller's whenever the caller's directory can still be entered: it was
    never left, or the [finally] block went back to it.  It is not the
    caller's in one case only: the [os.chdir(cwd)] of the [finally] block
    fails; the process then stays in the temporary directory and the call
    ends in the [OSError] of that [os.chdir]. *)
Theorem make_image_pdf_releases (w : World) (image_files : list str) (p : Proc) :
  open_fds (snd (make_image_pdf w image_files p)) = open_fds p ∧
  (chdir_ok w (cwd p) = true →
   cwd (snd (make_image_pdf w image_files p)) = cwd p) ∧
  (cwd (snd (make_image_pdf w image_files p)) = cwd p ∨
   ∃ tmp_dir,
     mkdtemp_result w = Some tmp_dir ∧ chdir_ok w tmp_dir = true ∧
     chdir_ok w (cwd p) = false ∧
     cwd (snd (make_image_pdf w image_files p)) = tmp_dir ∧
     fst (make_image_pdf w image_files p) = Raise (OSError "chdir")).
Proof.
  unfold_script.
  destruct (mkdtemp_result w) as [tmp_dir|]; [|repeat split; auto].
  destruct (mkstemp_result w tmp_dir) as [file_name|]; [|repeat split; auto].
  match goal with
  | |- context [write_document w file_name image_files ?q] =>
      destruct (keeps_write_document w file_name image_files q) as (Hc & Hf & Hout);
      destruct (write_document w file_name image_files q) as [[[]|e] p1]
  end; simpl in Hc, Hf, Hout; cbn beta iota zeta.
  - destruct (getcwd_ok w); cbn beta iota zeta;
      [destruct (chdir_ok w tmp_dir) eqn:Hin; cbn beta iota zeta;
       [destruct (spawn w [py "platex"; file_name]) as [status out|]; cbn beta iota zeta;
        [destruct (status =? 0)%Z; cbn beta iota zeta;
         [destruct (spawn w [py "dvipdfmx"; convert_ext (os_path w) file_name (py "dvi")]);
          cbn beta iota zeta|];
         try destruct (path_exists w (convert_ext (os_path w) file_name (py "pdf")))|]|]|];
      simpl; (rewrite decide_True by (apply (fresh_is_open _ _ Hf))); simpl;
      rewrite ?Hc;
      (split; [|split];
       [try destruct (chdir_ok w (cwd p)); simpl; rewrite Hf; apply close_fresh
       |intros Hback; rewrite ?Hback; simpl; rewrite ?Hc; reflexivity
       |first
          [left; simpl; rewrite ?Hc; reflexivity
          |destruct (chdir_ok w (cwd p)) eqn:Hback; simpl;
           first
             [left; rewrite ?Hc; reflexivity
             |right; exists tmp_dir; repeat split; first [reflexivity|exact Hin]]]]).
  - simpl. rewrite decide_True by (apply (fresh_is_open _ _ Hf)). simpl.
    rewrite Hc, Hf. split; [apply close_fresh|]. split; [reflexivity|left; reflexivity].
Qed.

Lemma make_image_pdf_releases_witness :
  open_fds (snd (make_image_pdf (demo_world [] 1 false) [py "fig.png"] demo_proc))
  = open_fds demo_proc ∧
  cwd (snd (make_image_pdf (demo_world [] 1 false) [py "fig.png"] demo_proc))
  = cwd demo_proc.
Proof.
  destruct (make_image_pdf_releases (demo_world [] 1 false) [py "fig.png"] demo_proc)
    as (Hfds & Hcwd & _).
  split; [exact Hfds|exact (Hcwd eq_refl)].
Defined.

(** An exception raised before [fd] or [cwd] is bound does not reach the
    caller: the [finally] block reads the unbound local, and the
    [UnboundLocalError] takes its place. *)
Lemma mkstemp_failure_is_masked
    (w : World) (image_files : list str) (p : Proc) (tmp_dir : str) :
  mkdtemp_result w = Some tmp_dir →
  mkstemp_result w tmp_dir = None →
  make_image_pdf w image_files p = (Raise (UnboundLocalError "fd"), p).
Proof. intros Hd Hn. unfold_script. rewrite Hd, Hn. reflexivity. Qed.

Lemma open_failure_is_masked
    (w : World) (image_files : list str) (p : Proc) (tmp_dir file_name : str) :
  mkdtemp_result w = Some tmp_dir →
  mkstemp_result w tmp_dir = Some file_name →
  open_ok w file_name = false →
  make_image_pdf w image_files p = (Raise (UnboundLocalError "cwd"), p).
Proof.
  intros Hd Hn Ho. unfold_script. rewrite Hd, Hn.
  unfold write_document, with_open, os_open, mbind, M_bind. rewrite Ho. simpl.
  rewrite decide_True by (apply elem_of_union; left; apply elem_of_singleton; reflexivity).
  simpl. rewrite close_fresh. destruct p; reflexivity.
Qed.

(** ** The outcome of [make_image_pdf] *)

Lemma file_write_ok (w : World) (name data : str) (p : Proc) :
  (∀ n, write_ok w n = true) → fst (file_write w name data p) = Return tt.
Proof. intros Hw. unfold file_write. rewrite Hw. reflexivity. Qed.

Lemma write_figures_ok (w : World) (name : str) (image_files : list str) :
  (∀ n, write_ok w n = true) →
  ∀ p, fst (write_figures w name image_files p) = Return tt.
Proof.
  intros Hw. induction image_files as [|f rest IH]; intros p; simpl; [reflexivity|].
  unfold mbind, M_bind.
  pose proof (file_write_ok w name
                (LATEX_TEMPLATE_FIGURE_format (replace_backslash (abspath w (cwd p) f)))
                p Hw) as H1.
  destruct (file_write w name _ p) as [r p1]. simpl in H1. subst r. apply IH.
Qed.

Lemma write_document_ok (w : World) (name : str) (image_files : list str) (p : Proc) :
  open_ok w name = true → (∀ n, write_ok w n = true) →
  fst (write_document w name image_files p) = Return tt.
Proof.
  intros Ho Hw.
  unfold write_document, with_open, os_open, try_finally, os_close, mbind, M_bind.
  rewrite Ho.
  match goal with
  | |- context [file_write w name LATEX_TEMPLATE_START ?q] =>
      pose proof (file_write_ok w name LATEX_TEMPLATE_START q Hw) as H1;
      destruct (keeps_file_write w name LATEX_TEMPLATE_START q) as (_ & Hf1 & _);
      destruct (file_write w name LATEX_TEMPLATE_START q) as [r1 p1]
  end.
  simpl in H1, Hf1. subst r1.
  pose proof (write_figures_ok w name image_files Hw p1) as H2.
  destruct (keeps_write_figures w name image_files p1) as (_ & Hf2 & _).
  destruct (write_figures w name image_files p1) as [r2 p2].
  simpl in H2, Hf2. subst r2.
  pose proof (file_write_ok w name LATEX_TEMPLATE_END p2 Hw) as H3.
  destruct (keeps_file_write w name LATEX_TEMPLATE_END p2) as (_ & Hf3 & _).
  destruct (file_write w name LATEX_TEMPLATE_END p2) as [r3 p3].
  simpl in H3, Hf3. subst r3.
  rewrite decide_True by (apply (fresh_is_open (open_fds p)); rewrite Hf3, Hf2, Hf1; reflexivity).
  reflexivity.
Qed.

(** The caller's directory cannot be entered again: whether the PDF file
    was made or not, [make_image_pdf] ends in the [OSError] of the
    [os.chdir(cwd)] of its [finally] block; it neither returns the path
    nor raises the runtime error. *)
Lemma make_image_pdf_chdir_error_wins :
  (path_exists (no_way_back true) (py "/tmp/tmpq1w2e3/tmpa9b8c7.pdf") = true ∧
   fst (make_image_pdf (no_way_back true) [py "fig.png"] demo_proc)
   = Raise (OSError "chdir")) ∧
  (path_exists (no_way_back false) (py "/tmp/tmpq1w2e3/tmpa9b8c7.pdf") = false ∧
   fst (make_image_pdf (no_way_back false) [py "fig.png"] demo_proc)
   = Raise (OSError "chdir")).
Proof. repeat split; vm_compute; reflexivity. Qed.

(** C4: [make_image_pdf] ends in the runtime error only when [platex] ran
    and exited, [dvipdfmx] ran and exited if the status of [platex] was 0,
    the PDF file is absent, and the [finally] block could go back to the
    caller's directory.  When the steps up to the programs go through:
    if the caller's directory cannot be entered again the call ends in the
    [OSError] of [os.chdir], whatever the programs and the PDF file; if it
    can, the call ends in the [OSError] of a program that cannot be
    started ([platex], or [dvipdfmx] after a [platex] that exited with 0),
    and otherwise, whatever the exit status of [dvipdfmx] and without
    looking at [dvipdfmx] after a [platex] that failed, it returns the
    path of the PDF file if the file exists and raises the runtime error
    if it does not. *)
Theorem make_image_pdf_fails_iff_no_pdf (w : World) (image_files : list str) (p : Proc) :
  (∀ msg, fst (make_image_pdf w image_files p) = Raise (RuntimeError msg) →
     msg = "Failed to create pdf files"%string ∧
     ∃ tmp_dir file_name status out,
       mkdtemp_result w = Some tmp_dir ∧ mkstemp_result w tmp_dir = Some file_name ∧
       spawn w [py "platex"; file_name] = Exited status out ∧
       (status = 0%Z →
        ∃ status' out',
          spawn w [py "dvipdfmx"; convert_ext (os_path w) file_name (py "dvi")]
          = Exited status' out') ∧
       path_exists w (convert_ext (os_path w) file_name (py "pdf")) = false ∧
       chdir_ok w (cwd p) = true) ∧
  (∀ tmp_dir file_name,
     mkdtemp_result w = Some tmp_dir →
     mkstemp_result w tmp_dir = Some file_name →
     open_ok w file_name = true →
     (∀ n, write_ok w n = true) →
     getcwd_ok w = true →
     chdir_ok w tmp_dir = true →
     (chdir_ok w (cwd p) = false →
      fst (make_image_pdf w image_files p) = Raise (OSError "chdir")) ∧
     (chdir_ok w (cwd p) = true →
      (spawn w [py "platex"; file_name] = NotStarted →
       fst (make_image_pdf w image_files p) = Raise (OSError "exec")) ∧
      (∀ out,
         spawn w [py "platex"; file_name] = Exited 0 out →
         spawn w [py "dvipdfmx"; convert_ext (os_path w) file_name (py "dvi")]
         = NotStarted →
         fst (make_image_pdf w image_files p) = Raise (OSError "exec")) ∧
      (∀ status out,
         spawn w [py "platex"; file_name] = Exited status out →
         (status = 0%Z →
          ∃ status' out',
            spawn w [py "dvipdfmx"; convert_ext (os_path w) file_name (py "dvi")]
            = Exited status' out') →
         fst (make_image_pdf w image_files p) =
         if path_exists w (convert_ext (os_path w) file_name (py "pdf"))
         then Return (convert_ext (os_path w) file_name (py "pdf"))
         else Raise (RuntimeError "Failed to create pdf files")))).
Proof.
  split.
  - intros msg. unfold_script.
    destruct (mkdtemp_result w) as [tmp_dir|] eqn:Hd; [|discriminate].
    destruct (mkstemp_result w tmp_dir) as [file_name|] eqn:Hn; [|discriminate].
    match goal with
    | |- context [write_document w file_name image_files ?q] =>
        destruct (keeps_write_document w file_name image_files q) as (Hc & Hf & Hout);
        destruct (write_document w file_name image_files q) as [[[]|e] p1]
    end; simpl in Hc, Hf, Hout; cbn beta iota zeta.
    + destruct (getcwd_ok w); cbn beta iota zeta;
        [destruct (chdir_ok w tmp_dir); cbn beta iota zeta;
         [destruct (spawn w [py "platex"; file_name]) as [status out|] eqn:Hplatex;
          cbn beta iota zeta;
          [destruct (status =? 0)%Z eqn:Hs; cbn beta iota zeta;
           [destruct (spawn w [py "dvipdfmx"; convert_ext (os_path w) file_name (py "dvi")])
              as [status' out'|] eqn:Hconv;
            cbn beta iota zeta|];
           try destruct (path_exists w (convert_ext (os_path w) file_name (py "pdf"))) eqn:Hpdf|]|]|];
        simpl; (rewrite decide_True by (apply (fresh_is_open _ _ Hf))); simpl;
        rewrite ?Hc; destruct (chdir_ok w (cwd p)) eqn:Hback; simpl;
        intros H; try discriminate H;
        injection H as <-; (split; [reflexivity|]);
        exists tmp_dir, file_name, status, out;
        (repeat split; try assumption);
        intros Hz; [eauto|subst status; discriminate Hs].
    + simpl. rewrite decide_True by (apply (fresh_is_open _ _ Hf)). simpl. discriminate.
  - intros tmp_dir file_name Hd Hn Ho Hw Hg Hct.
    unfold_script. rewrite Hd, Hn.
    pose proof (write_document_ok w file_name image_files
                  {| cwd := cwd p; open_fds := {[fresh (open_fds p)]} ∪ open_fds p;
                     written := written p; stdout := stdout p |} Ho Hw) as Hdoc.
    match goal with
    | |- context [write_document w file_name image_files ?q] =>
        destruct (keeps_write_document w file_name image_files q) as (Hc & Hf & Hout);
        destruct (write_document w file_name image_files q) as [r p1]
    end; simpl in Hc, Hf, Hout, Hdoc; subst r; cbn beta iota zeta.
    rewrite Hg. cbn beta iota zeta. rewrite Hct. cbn beta iota zeta.
    split; [|split; [|split]].
    + intros Hback.
      destruct (spawn w [py "platex"; file_name]) as [status out|]; cbn beta iota zeta;
        [destruct (status =? 0)%Z; cbn beta iota zeta;
         [destruct (spawn w [py "dvipdfmx"; convert_ext (os_path w) file_name (py "dvi")]);
          cbn beta iota zeta|];
         try destruct (path_exists w (convert_ext (os_path w) file_name (py "pdf")))|];
        simpl; (rewrite decide_True by (apply (fresh_is_open _ _ Hf))); simpl;
        rewrite Hc, Hback; reflexivity.
    + intros Hplatex. rewrite Hplatex. cbn beta iota zeta.
      simpl. rewrite decide_True by (apply (fresh_is_open _ _ Hf)). simpl.
      rewrite Hc, H. reflexivity.
    + intros out Hplatex Hconv. rewrite Hplatex. cbn beta iota zeta.
      change (0 =? 0)%Z with true. cbn beta iota zeta. rewrite Hconv. cbn beta iota zeta.
      simpl. rewrite decide_True by (apply (fresh_is_open _ _ Hf)). simpl.
      rewrite Hc, H. reflexivity.
    + intros status out Hplatex Hconv. rewrite Hplatex. cbn beta iota zeta.
      destruct (status =? 0)%Z eqn:Hs; cbn beta iota zeta.
      * apply Z.eqb_eq in Hs. destruct (Hconv Hs) as (status' & out' & ->).
        cbn beta iota zeta.
        destruct (path_exists w (convert_ext (os_path w) file_name (py "pdf")));
          simpl; (rewrite decide_True by (apply (fresh_is_open _ _ Hf))); simpl;
          rewrite Hc, H; reflexivity.
      * destruct (path_exists w (convert_ext (os_path w) file_name (py "pdf")));
          simpl; (rewrite decide_True by (apply (fresh_is_open _ _ Hf))); simpl;
          rewrite Hc, H; reflexivity.
Qed.

(** In the example world the converter fails, the PDF file is there all the
    same, and its path is returned; where [platex] is not installed the
    call ends in an [OSError], with or without the PDF file. *)
Lemma make_image_pdf_fails_iff_no_pdf_witness :
  (spawn (demo_world [] 1 true)
     [py "dvipdfmx"; convert_ext Posix (py "/tmp/tmpq1w2e3/tmpa9b8c7.txt") (py "dvi")]
   = Exited 1 [] ∧
   fst (make_image_pdf (demo_world [] 1 true) [py "fig.png"] demo_proc)
   = Return (py "/tmp/tmpq1w2e3/tmpa9b8c7.pdf")) ∧
  fst (make_image_pdf (world_without (py "platex") false) [py "fig.png"] demo_proc)
  = Raise (OSError "exec").
Proof.
  split; [split; [vm_compute; reflexivity|]|].
  - pose proof (proj2 (make_image_pdf_fails_iff_no_pdf
                         (demo_world [] 1 true) [py "fig.png"] demo_proc)
                  (py "/tmp/tmpq1w2e3") (py "/tmp/tmpq1w2e3/tmpa9b8c7.txt")
                  eq_refl eq_refl eq_refl (fun _ => eq_refl) eq_refl eq_refl) as [_ H].
    destruct (H eq_refl) as (_ & _ & Hret).
    exact (Hret 0%Z [] eq_refl (fun _ => ex_intro _ 1%Z (ex_intro _ [] eq_refl))).
  - pose proof (proj2 (make_image_pdf_fails_iff_no_pdf
                         (world_without (py "platex") false) [py "fig.png"] demo_proc)
                  (py "/tmp/tmpq1w2e3") (py "/tmp/tmpq1w2e3/tmpa9b8c7.txt")
                  eq_refl eq_refl eq_refl (fun _ => eq_refl) eq_refl eq_refl) as [_ H].
    destruct (H eq_refl) as (Hexec & _).
    exact (Hexec eq_refl).
Defined.

(** ** Undecodable output *)

(** The byte 0x80 decodes under neither codec; [check_font_type] then ends
    in a [TypeError], not in an empty list. *)
Lemma undecodable_listing_raises :
  to_str (demo_world [Byte.x80] 0 true) [Byte.x80] = None ∧
  fst (check_font_type (demo_world [Byte.x80] 0 true) [py "fig.png"] demo_proc)
  = Raise (TypeError "expected string or bytes-like object").
Proof. split; vm_compute; reflexivity. Qed.

(** C3, as the code has it: when the PDF file was made and the listing of
    [pdffonts] decodes under neither encoding, [check_font_type] raises the
    [TypeError] of [output_pattern.split(None)]. *)
Theorem check_font_type_undecodable
    (w : World) (image_files : list str) (p p1 : Proc) (pdf_file : str) (out : bytes) :
  make_image_pdf w image_files p = (Return pdf_file, p1) →
  spawn w [py "pdffonts"; pdf_file] = Exited 0 out →
  decode w "sjis" out = None →
  decode w "utf8" out = None →
  check_font_type w image_files p
  = (Raise (TypeError "expected string or bytes-like object"), p1).
Proof.
  intros Hpdf Hrun Hsjis Hutf8.
  unfold check_font_type, mbind, M_bind. rewrite Hpdf.
  unfold subprocess_check_output. rewrite Hrun. simpl.
  unfold to_str, encoding. simpl. rewrite Hsjis, Hutf8. reflexivity.
Qed.

Lemma check_font_type_undecodable_witness :
  check_font_type (demo_world [Byte.x80] 0 true) [py "fig.png"] demo_proc
  = (Raise (TypeError "expected string or bytes-like object"),
     snd (make_image_pdf (demo_world [Byte.x80] 0 true) [py "fig.png"] demo_proc)).
Proof.
  apply (check_font_type_undecodable (demo_world [Byte.x80] 0 true) [py "fig.png"]
           demo_proc _ (py "/tmp/tmpq1w2e3/tmpa9b8c7.pdf") [Byte.x80]);
    vm_compute; reflexivity.
Defined.

(** ** The filter *)

(** With a filter, [report] prints nothing at all: a font type that does not
    match is skipped, and the first one that matches ends the run in a
    [KeyError], because the names of [locals()] are passed as positional
    arguments to a template with named fields. *)
Lemma report_filter_match_raises
    (matches : str -> bool) (f type : option str) (log_level font_type : str)
    (rest : list str) (p : Proc) :
  matches font_type = true →
  report (Some matches) f type log_level (font_type :: rest) p = (Raise (KeyError "f"), p).
Proof. intros Hm. simpl. rewrite Hm. reflexivity. Qed.

Lemma report_filter_no_match
    (matches : str -> bool) (f type : option str) (log_level : str)
    (font_types : list str) (p : Proc) :
  forallb (fun t => negb (matches t)) font_types = true →
  report (Some matches) f type log_level font_types p = (Return tt, p).
Proof.
  induction font_types as [|t rest IH]; intros H; simpl in *; [reflexivity|].
  apply andb_true_iff in H as [Ht Hrest]. apply negb_true_iff in Ht.
  rewrite Ht. unfold mbind, M_bind, mret, M_ret. apply IH, Hrest.
Qed.

(** C1 on the code: with [--type Type1] and no [-i], a font of type
    [type1C] is passed over and the run ends normally with nothing printed;
    a font of type [Type1C] is recognised by the filter, but no line is
    printed for it: the run ends in [KeyError: 'f']. *)
Theorem filter_match_raises_key_error :
  (∃ p', main (demo_world listing_type1C 0 true) 10 [py "fig.png"]
              (Some (py "Type1")) false (py "INFO") demo_proc
         = Some (Return tt, p') ∧ stdout p' = []) ∧
  include_fonts ascii_only (re_split_eol (List.map Byte.to_N listing_Type1C))
  = [py "Type1C"] ∧
  (∃ p', main (demo_world listing_Type1C 0 true) 10 [py "fig.png"]
              (Some (py "Type1")) false (py "INFO") demo_proc
         = Some (Raise (KeyError "f"), p') ∧ stdout p' = []).
Proof.
  split; [|split].
  - eexists. split; [vm_compute; reflexivity|reflexivity].
  - vm_compute. reflexivity.
  - eexists. split; [vm_compute; reflexivity|reflexivity].
Qed.

(** ** The wildcard loop *)

Section LoopFacts.
  Context {A : Type} (val : A -> str) (mk : str -> A) (globber : str -> list str).

  (** An invariant of the turns of the loop holds when the loop ends, and
      the iterator is then exhausted. *)
Lemma loop_invariant (P : iteration A -> Prop) :
    (∀ it it1, P it → loop_step val mk globber it = Some (Return it1) → P it1) →
    ∀ fuel it it', P it → loop val mk globber fuel it = Some (Return it') →
                   P it' ∧ loop_step val mk globber it' = None.
  Proof.
    intros Hstep fuel. induction fuel as [|fuel IH]; intros it it' HP H; simpl in H.
    - destruct (loop_step val mk globber it) as [[it1|e]|] eqn:Hs; try discriminate.
      injection H as <-. auto.
    - destruct (loop_step val mk globber it) as [[it1|e]|] eqn:Hs; try discriminate.
      + eapply IH; [|exact H]. eapply Hstep; eauto.
      + injection H as <-. auto.
  Qed.

  (** More fuel does not change the result of a loop that ended. *)
Lemma loop_more_fuel (fuel fuel' : nat) (it : iteration A) (r : outcome (iteration A)) :
    (fuel ≤ fuel')%nat →
    loop val mk globber fuel it = Some r → loop val mk globber fuel' it = Some r.
  Proof.
    revert fuel' it. induction fuel as [|fuel IH]; intros fuel' it Hle H; simpl in H.
    - destruct fuel'; simpl;
        destruct (loop_step val mk globber it) as [[it1|e]|]; congruence.
    - destruct fuel' as [|fuel']; [lia|]. simpl.
      destruct (loop_step val mk globber it) as [[it1|e]|]; try congruence.
      apply IH; [lia|exact H].
  Qed.

Lemma list_remove_present (l : list A) :
    ∀ (i : nat) (f : A), l !! i = Some f → is_Some (list_remove val (val f) l).
  Proof.
    induction l as [|y l IH]; intros i f Hi; [discriminate|]. simpl.
    destruct (decide (val y = val f)); [eauto|].
    destruct i as [|i]; simpl in Hi; [congruence|].
    destruct (IH i f Hi) as [l' ->]. simpl. eauto.
  Qed.

  (** The entry that is removed sits at or before the iterator: what lies
      beyond the next entry is untouched and moves one place down. *)
Lemma list_remove_drop (l : list A) :
    ∀ (i : nat) (f : A) (l' : list A),
      l !! i = Some f → list_remove val (val f) l = Some l' →
      drop (S i) l' = drop (S (S i)) l.
  Proof.
    induction l as [|y l IH]; intros i f l' Hi Hr; [discriminate|]. simpl in Hr.
    destruct (decide (val y = val f)).
    - injection Hr as <-. reflexivity.
    - destruct i as [|i]; simpl in Hi; [congruence|].
      destruct (list_remove val (val f) l) as [l''|] eqn:Hl; [|discriminate].
      injection Hr as <-. simpl. apply (IH i f l'' Hi Hl).
  Qed.

Lemma list_remove_next (l : list A) :
    ∀ (i : nat) (f g : A) (l' : list A),
      l !! i = Some f → list_remove val (val f) l = Some l' →
      l !! S i = Some g → l' !! i = Some g.
  Proof.
    induction l as [|y l IH]; intros i f g l' Hi Hr Hg; [discriminate|]. simpl in Hr.
    destruct (decide (val y = val f)).
    - injection Hr as <-. exact Hg.
    - destruct i as [|i]; simpl in Hi; [congruence|].
      destruct (list_remove val (val f) l) as [l''|] eqn:Hl; [|discriminate].
      injection Hr as <-. simpl. apply (IH i f g l'' Hi Hl Hg).
  Qed.

  (** A name that occurs before the iterator still does after the removal. *)
Lemma list_remove_keeps_before (l : list A) :
    ∀ (i : nat) (f : A) (l' : list A) (x : str),
      l !! i = Some f → list_remove val (val f) l = Some l' →
      x ∈ List.map val (take i l) → x ∈ List.map val (take i l').
  Proof.
    induction l as [|y l IH]; intros i f l' x Hi Hr Hx; [discriminate|]. simpl in Hr.
    destruct (decide (val y = val f)) as [He|Hne].
    - injection Hr as <-.
      destruct i as [|i]; simpl in Hx; [exact Hx|]. simpl in Hi.
      apply elem_of_cons in Hx as [->|Hx].
      + rewrite He. apply list_elem_of_fmap. exists f. split; [reflexivity|].
        apply list_elem_of_lookup. exists i. rewrite lookup_take_lt by lia. exact Hi.
      + apply list_elem_of_fmap in Hx as (z & -> & Hz).
        apply list_elem_of_fmap. exists z. split; [reflexivity|].
        apply list_elem_of_lookup in Hz as (j & Hj).
        apply lookup_take_Some in Hj as [Hj Hlt].
        apply list_elem_of_lookup. exists j. rewrite lookup_take_lt by lia. exact Hj.
    - destruct i as [|i]; simpl in Hi; [congruence|].
      destruct (list_remove val (val f) l) as [l''|] eqn:Hl; [|discriminate].
      injection Hr as <-. simpl in Hx |- *.
      apply elem_of_cons in Hx as [->|Hx]; [apply elem_of_cons; auto|].
      apply elem_of_cons. right. apply (IH i f l'' x Hi Hl Hx).
  Qed.
End LoopFacts.

(** The tags play no part: the tagged loop, with its tags dropped, is the
    loop of [main]. *)
Lemma list_remove_untag (x : str) (l : list (origin * str)) :
  list_remove id x (List.map snd l) = List.map snd <$> list_remove snd x l.
Proof.
  induction l as [|y l IH]; simpl; [reflexivity|].
  destruct (decide (id y.2 = x)) as [He|Hne]; destruct (decide (y.2 = x));
    try (unfold id in *; congruence); [reflexivity|].
  rewrite IH. destruct (list_remove snd x l); reflexivity.
Qed.

Lemma loop_step_untag (globber : str -> list str) (it : iteration (origin * str)) :
  loop_step id id globber (untag it)
  = untag_outcome <$> loop_step snd (fun x => (Globbed, x)) globber it.
Proof.
  unfold loop_step, untag. simpl. rewrite list_lookup_fmap.
  destruct (items it !! pos it) as [f|]; simpl; [|reflexivity].
  destruct (has_wildcard f.2); simpl.
  - rewrite list_remove_untag. destruct (list_remove snd f.2 (items it)); simpl.
    + unfold untag. simpl. rewrite !map_app, map_map. simpl.
      change (List.map id (globber f.2)) with (List.map (fun x : str => x) (globber f.2)).
      reflexivity.
    + reflexivity.
  - unfold untag. simpl. rewrite map_app. reflexivity.
Qed.

Lemma loop_untag (globber : str -> list str) (fuel : nat) :
  ∀ it : iteration (origin * str),
    loop id id globber fuel (untag it)
    = untag_outcome <$> loop snd (fun x => (Globbed, x)) globber fuel it.
Proof.
  induction fuel as [|fuel IH]; intros it; simpl; rewrite loop_step_untag;
    destruct (loop_step snd _ globber it) as [[it1|e]|]; simpl; auto.
Qed.

Lemma untag_tag_args (l : list str) : List.map snd (tag_args l) = l.
Proof.
  unfold tag_args. apply list_eq. intros i.
  rewrite list_lookup_fmap, list_lookup_imap. destruct (l !! i); reflexivity.
Qed.

Lemma expand_untag (w : World) (fuel : nat) (l : list str) :
  expand_wildcards w fuel l = untag_outcome <$> expand_tagged w fuel l.
Proof.
  unfold expand_wildcards, expand_tagged, expand.
  rewrite <- loop_untag. unfold untag. simpl. rewrite untag_tag_args. reflexivity.
Qed.

Lemma elem_of_take_app {A B} (f : A -> B) (y : B) (i j : nat) (l k : list A) :
  (i ≤ j)%nat → y ∈ List.map f (take i l) → y ∈ List.map f (take j (l ++ k)).
Proof.
  intros Hle Hy. apply list_elem_of_fmap in Hy as (x & -> & Hx).
  apply list_elem_of_fmap. exists x. split; [reflexivity|].
  apply elem_of_take in Hx as (m & Hm & Hlt).
  apply elem_of_take. exists m. split; [apply lookup_app_l_Some; exact Hm|lia].
Qed.

Lemma tag_args_lookup (l : list str) (n : nat) :
  tag_args l !! n = (fun x => (Arg n, x)) <$> l !! n.
Proof. unfold tag_args. rewrite list_lookup_imap. reflexivity. Qed.

Section Skipping.
  Variables (globber : str -> list str) (l : list str) (i : nat) (a b : str).
  Hypothesis Hb : l !! S i = Some b.
  Hypothesis Hwild : has_wildcard a = true.

Lemma skip_inv_start :
    skip_inv l i a b {| items := tag_args l; pos := 0; examined := [] |}.
  Proof.
    exists 0%nat, []. simpl. rewrite app_nil_r.
    split; [reflexivity|]. split; [apply Forall_nil_2|].
    split; [intros m x H; inversion H|intros H; inversion H].
  Qed.

  (** The entry under the iterator is the first argument of the tail, or a
      [glob] result when the tail is empty. *)
Lemma skip_inv_head (it : iteration (origin * str)) (n : nat)
      (gs : list (origin * str)) (f : origin * str) :
    drop (pos it) (items it) = drop n (tag_args l) ++ gs →
    Forall (fun t => t.1 = Globbed) gs →
    items it !! pos it = Some f →
    (∃ x, l !! n = Some x ∧ f = (Arg n, x) ∧
          drop (S (pos it)) (items it) = drop (S n) (tag_args l) ++ gs) ∨
    (∃ gs', f.1 = Globbed ∧ drop n (tag_args l) = [] ∧ gs = f :: gs' ∧
            drop (S (pos it)) (items it) = gs').
  Proof.
    intros Hd Hg Hf.
    rewrite (drop_S _ _ _ Hf) in Hd.
    destruct (l !! n) as [x|] eqn:Hn.
    - left. exists x.
      assert (Ht : tag_args l !! n = Some (Arg n, x)) by (rewrite tag_args_lookup, Hn; reflexivity).
      rewrite (drop_S _ _ _ Ht) in Hd. simpl in Hd. injection Hd as -> ->. auto.
    - right.
      assert (Ht : drop n (tag_args l) = []).
      { apply drop_ge. apply lookup_ge_None. rewrite tag_args_lookup, Hn. reflexivity. }
      rewrite Ht in Hd. simpl in Hd.
      destruct gs as [|g gs']; [discriminate|]. injection Hd as -> ->.
      exists gs'. inversion Hg; subst. auto.
  Qed.

Lemma skip_inv_step (it it1 : iteration (origin * str)) :
    skip_inv l i a b it →
    loop_step snd (fun x => (Globbed, x)) globber it = Some (Return it1) →
    skip_inv l i a b it1.
  Proof.
    intros (n & gs & Hd & Hg & Hex & Hskip) Hstep.
    unfold loop_step in Hstep.
    destruct (items it !! pos it) as [f|] eqn:Hf; [|discriminate]. simpl in Hstep.
    assert (Hd2 : ∀ l', list_remove snd f.2 (items it) = Some l' →
                        drop (S (pos it)) l' = drop 1 (drop (S (pos it)) (items it))).
    { intros l' Hr. rewrite (list_remove_drop snd (items it) (pos it) f l' Hf Hr).
      rewrite drop_drop. f_equal. lia. }
    destruct (skip_inv_head it n gs f Hd Hg Hf)
      as [(x & Hn & -> & Hd')|(gs' & Hglob & Hnil & -> & Hd')]; simpl in Hstep.
    - (* the entry is argument [n] *)
      assert (Hnew : ∀ m y, (Arg m, y) ∈ examined it ++ [(Arg n, x)] →
                            (Arg m, y) ∈ examined it ∨ (m = n ∧ y = x)).
      { intros m y Hin. apply elem_of_app in Hin as [Hin|Hin]; [auto|].
        apply list_elem_of_singleton in Hin. injection Hin as -> ->. auto. }
      destruct (has_wildcard x) eqn:Hwx.
      + destruct (list_remove snd x (items it)) as [l'|] eqn:Hr; [|discriminate].
        injection Hstep as <-. simpl.
        exists (S (S n)),
          (drop (1 - length (drop (S n) (tag_args l))) gs ++
           drop (S (pos it) - length l') (List.map (fun y => (Globbed, y)) (globber x))).
        simpl. split; [|split; [|split]].
        * rewrite drop_app, (Hd2 l' Hr), Hd', drop_app, drop_drop, <- app_assoc.
          do 2 f_equal. lia.
        * apply Forall_app. split; [apply Forall_drop, Hg|].
          apply Forall_drop, Forall_forall. intros t Ht.
          apply list_elem_of_fmap in Ht as (y & -> & _). reflexivity.
        * intros m y Hin. apply Hnew in Hin as [Hin|[-> _]]; [|lia].
          specialize (Hex m y Hin). lia.
        * intros Hin. apply Hnew in Hin as [Hin|[Hi Hx]]; [|subst n x].
          -- destruct (Hskip Hin) as (Hlt & Hno & Hbefore).
             split; [lia|]. split.
             ++ intros y Hy. apply Hnew in Hy as [Hy|[Heq _]]; [exact (Hno y Hy)|lia].
             ++ apply (elem_of_take_app snd b (pos it)); [lia|].
                apply (list_remove_keeps_before snd (items it) (pos it) (Arg n, x) l' b Hf Hr).
                exact Hbefore.
          -- split; [lia|]. split.
             ++ intros y Hy. apply Hnew in Hy as [Hy|[Heq _]]; [|lia].
                specialize (Hex _ _ Hy). lia.
             ++ assert (Hnext : items it !! S (pos it) = Some (Arg (S i), b)).
                { rewrite <- (Nat.add_0_r (S (pos it))), <- lookup_drop, Hd'.
                  apply lookup_app_l_Some. rewrite lookup_drop, Nat.add_0_r.
                  rewrite tag_args_lookup, Hb. reflexivity. }
                pose proof (list_remove_next snd (items it) (pos it) (Arg i, a)
                              (Arg (S i), b) l' Hf Hr Hnext) as Hl'.
                apply list_elem_of_fmap. exists (Arg (S i), b). split; [reflexivity|].
                apply elem_of_take. exists (pos it). split; [|lia].
                apply lookup_app_l_Some. exact Hl'.
      + injection Hstep as <-. simpl.
        exists (S n), gs. simpl. split; [exact Hd'|]. split; [exact Hg|]. split.
        * intros m y Hin. apply Hnew in Hin as [Hin|[-> _]]; [|lia].
          specialize (Hex m y Hin). lia.
        * intros Hin. apply Hnew in Hin as [Hin|[Hi Hx]]; [|congruence].
          destruct (Hskip Hin) as (Hlt & Hno & Hbefore).
          split; [lia|]. split.
          -- intros y Hy. apply Hnew in Hy as [Hy|[Heq _]]; [exact (Hno y Hy)|lia].
          -- rewrite <- (app_nil_r (items it)).
             apply (elem_of_take_app snd b (pos it)); [lia|exact Hbefore].
    - (* the entry is a [glob] result *)
      assert (Hnew : ∀ m y, (Arg m, y) ∈ examined it ++ [f] → (Arg m, y) ∈ examined it).
      { intros m y Hin. apply elem_of_app in Hin as [Hin|Hin]; [auto|].
        apply list_elem_of_singleton in Hin. subst f. discriminate. }
      assert (Hg' : Forall (fun t => t.1 = Globbed) gs') by (inversion Hg; assumption).
      destruct (has_wildcard f.2) eqn:Hwx.
      + destruct (list_remove snd f.2 (items it)) as [l'|] eqn:Hr; [|discriminate].
        injection Hstep as <-. simpl.
        exists n,
          (drop 1 gs' ++
           drop (S (pos it) - length l') (List.map (fun y => (Globbed, y)) (globber f.2))).
        simpl. split; [|split; [|split]].
        * rewrite drop_app, (Hd2 l' eq_refl), Hd', Hnil. reflexivity.
        * apply Forall_app. split; [apply Forall_drop, Hg'|].
          apply Forall_drop, Forall_forall. intros t Ht.
          apply list_elem_of_fmap in Ht as (y & -> & _). reflexivity.
        * intros m y Hin. apply (Hex m y), Hnew, Hin.
        * intros Hin. apply Hnew in Hin.
          destruct (Hskip Hin) as (Hlt & Hno & Hbefore).
          split; [lia|]. split.
          -- intros y Hy. apply Hnew in Hy. exact (Hno y Hy).
          -- apply (elem_of_take_app snd b (pos it)); [lia|].
             apply (list_remove_keeps_before snd (items it) (pos it) f l' b Hf Hr).
             exact Hbefore.
      + injection Hstep as <-. simpl.
        exists n, gs'. simpl. split; [rewrite Hd', Hnil; reflexivity|].
        split; [exact Hg'|]. split.
        * intros m y Hin. apply (Hex m y), Hnew, Hin.
        * intros Hin. apply Hnew in Hin.
          destruct (Hskip Hin) as (Hlt & Hno & Hbefore).
          split; [lia|]. split.
          -- intros y Hy. apply Hnew in Hy. exact (Hno y Hy).
          -- rewrite <- (app_nil_r (items it)).
             apply (elem_of_take_app snd b (pos it)); [lia|exact Hbefore].
  Qed.
End Skipping.

Section Resuming.
  Variables (globber : str -> list str) (l : list str) (i : nat) (a c : str).
  Hypothesis Hc : l !! S (S i) = Some c.
  Hypothesis Hwild : has_wildcard a = true.

Lemma resume_inv_start :
    resume_inv l i a c {| items := tag_args l; pos := 0; examined := [] |}.
  Proof.
    exists 0%nat, []. simpl. rewrite app_nil_r.
    split; [reflexivity|]. split; [apply Forall_nil_2|].
    split; [intros m x H; inversion H|intros H; inversion H].
  Qed.

  (** The tail of the arguments is not empty while argument [i+2] is its
      first entry. *)
Lemma resume_tail_not_nil : drop (S (S i)) (tag_args l) ≠ [].
  Proof.
    assert (Ht : tag_args l !! S (S i) = Some (Arg (S (S i)), c))
      by (rewrite tag_args_lookup, Hc; reflexivity).
    rewrite (drop_S _ _ _ Ht). discriminate.
  Qed.

Lemma resume_inv_step (it it1 : iteration (origin * str)) :
    resume_inv l i a c it →
    loop_step snd (fun x => (Globbed, x)) globber it = Some (Return it1) →
    resume_inv l i a c it1.
  Proof.
    intros (n & gs & Hd & Hg & Hex & Hres) Hstep.
    unfold loop_step in Hstep.
    destruct (items it !! pos it) as [f|] eqn:Hf; [|discriminate]. simpl in Hstep.
    assert (Hd2 : ∀ l', list_remove snd f.2 (items it) = Some l' →
                        drop (S (pos it)) l' = drop 1 (drop (S (pos it)) (items it))).
    { intros l' Hr. rewrite (list_remove_drop snd (items it) (pos it) f l' Hf Hr).
      rewrite drop_drop. f_equal. lia. }
    destruct (skip_inv_head l it n gs f Hd Hg Hf)
      as [(x & Hn & -> & Hd')|(gs' & Hglob & Hnil & -> & Hd')]; simpl in Hstep.
    - (* the entry is argument [n] *)
      assert (Hnew : ∀ m y, (Arg m, y) ∈ examined it ++ [(Arg n, x)] →
                            (Arg m, y) ∈ examined it ∨ (m = n ∧ y = x)).
      { intros m y Hin. apply elem_of_app in Hin as [Hin|Hin]; [auto|].
        apply list_elem_of_singleton in Hin. injection Hin as -> ->. auto. }
      assert (Hthird : (Arg i, a) ∈ examined it →
                       (Arg (S (S i)), c) ∈ examined it ++ [(Arg n, x)]).
      { intros Hin. apply elem_of_app.
        destruct (Hres Hin) as [H|Hnext]; [left; exact H|right].
        subst n. rewrite Hc in Hn. injection Hn as <-.
        apply list_elem_of_singleton. reflexivity. }
      destruct (has_wildcard x) eqn:Hwx.
      + destruct (list_remove snd x (items it)) as [l'|] eqn:Hr; [|discriminate].
        injection Hstep as <-. simpl.
        exists (S (S n)),
          (drop (1 - length (drop (S n) (tag_args l))) gs ++
           drop (S (pos it) - length l') (List.map (fun y => (Globbed, y)) (globber x))).
        simpl. split; [|split; [|split]].
        * rewrite drop_app, (Hd2 l' Hr), Hd', drop_app, drop_drop, <- app_assoc.
          do 2 f_equal. lia.
        * apply Forall_app. split; [apply Forall_drop, Hg|].
          apply Forall_drop, Forall_forall. intros t Ht.
          apply list_elem_of_fmap in Ht as (y & -> & _). reflexivity.
        * intros m y Hin. apply Hnew in Hin as [Hin|[-> _]]; [|lia].
          specialize (Hex m y Hin). lia.
        * intros Hin. apply Hnew in Hin as [Hin|[Hi Hx]].
          -- left. exact (Hthird Hin).
          -- right. rewrite Hi. reflexivity.
      + injection Hstep as <-. simpl.
        exists (S n), gs. simpl. split; [exact Hd'|]. split; [exact Hg|]. split.
        * intros m y Hin. apply Hnew in Hin as [Hin|[-> _]]; [|lia].
          specialize (Hex m y Hin). lia.
        * intros Hin. apply Hnew in Hin as [Hin|[Hi Hx]]; [|congruence].
          left. exact (Hthird Hin).
    - (* the entry is a [glob] result: the tail of the arguments is empty *)
      assert (Hnew : ∀ m y, (Arg m, y) ∈ examined it ++ [f] → (Arg m, y) ∈ examined it).
      { intros m y Hin. apply elem_of_app in Hin as [Hin|Hin]; [auto|].
        apply list_elem_of_singleton in Hin. subst f. discriminate. }
      assert (Hg' : Forall (fun t => t.1 = Globbed) gs') by (inversion Hg; assumption).
      assert (Hthird : (Arg i, a) ∈ examined it ++ [f] →
                       (Arg (S (S i)), c) ∈ examined it ++ [f] ∨ n = S (S i)).
      { intros Hin. apply Hnew in Hin. left. apply elem_of_app. left.
        destruct (Hres Hin) as [H|Hnext]; [exact H|].
        subst n. destruct (resume_tail_not_nil Hnil). }
      destruct (has_wildcard f.2) eqn:Hwx.
      + destruct (list_remove snd f.2 (items it)) as [l'|] eqn:Hr; [|discriminate].
        injection Hstep as <-. simpl.
        exists n,
          (drop 1 gs' ++
           drop (S (pos it) - length l') (List.map (fun y => (Globbed, y)) (globber f.2))).
        simpl. split; [|split; [|split]].
        * rewrite drop_app, (Hd2 l' eq_refl), Hd', Hnil. reflexivity.
        * apply Forall_app. split; [apply Forall_drop, Hg'|].
          apply Forall_drop, Forall_forall. intros t Ht.
          apply list_elem_of_fmap in Ht as (y & -> & _). reflexivity.
        * intros m y Hin. apply (Hex m y), Hnew, Hin.
        * exact Hthird.
      + injection Hstep as <-. simpl.
        exists n, gs'. simpl. split; [rewrite Hd', Hnil; reflexivity|].
        split; [exact Hg'|]. split.
        * intros m y Hin. apply (Hex m y), Hnew, Hin.
        * exact Hthird.
  Qed.

  (** When the loop ends after it examined argument [i], it examined
      argument [i+2]. *)
Lemma resume_inv_end (it : iteration (origin * str)) :
    resume_inv l i a c it →
    loop_step snd (fun x => (Globbed, x)) globber it = None →
    (Arg i, a) ∈ examined it → (Arg (S (S i)), c) ∈ examined it.
  Proof.
    intros (n & gs & Hd & _ & _ & Hres) Hend Hin.
    destruct (Hres Hin) as [H|Hnext]; [exact H|]. subst n. exfalso.
    unfold loop_step in Hend.
    destruct (items it !! pos it) as [f|] eqn:Hf; [discriminate|].
    apply lookup_ge_None in Hf. rewrite drop_ge in Hd by exact Hf.
    symmetry in Hd. apply app_eq_nil in Hd as [Hd _].
    exact (resume_tail_not_nil Hd).
  Qed.
End Resuming.

(** ** What [main] prints *)

(** Nothing is printed before the reporting loop. *)
Lemma make_image_pdf_silent (w : World) (image_files : list str) (p : Proc) :
  stdout (snd (make_image_pdf w image_files p)) = stdout p.
Proof.
  unfold_script.
  destruct (mkdtemp_result w) as [tmp_dir|]; [|reflexivity].
  destruct (mkstemp_result w tmp_dir) as [file_name|]; [|reflexivity].
  match goal with
  | |- context [write_document w file_name image_files ?q] =>
      destruct (keeps_write_document w file_name image_files q) as (Hc & Hf & Hout);
      destruct (write_document w file_name image_files q) as [[[]|e] p1]
  end; simpl in Hc, Hf, Hout; cbn beta iota zeta.
  - destruct (getcwd_ok w); cbn beta iota zeta;
      [destruct (chdir_ok w tmp_dir); cbn beta iota zeta;
       [destruct (spawn w [py "platex"; file_name]) as [status out|]; cbn beta iota zeta;
        [destruct (status =? 0)%Z; cbn beta iota zeta;
         [destruct (spawn w [py "dvipdfmx"; convert_ext (os_path w) file_name (py "dvi")]);
          cbn beta iota zeta|];
         try destruct (path_exists w (convert_ext (os_path w) file_name (py "pdf")))|]|]|];
      simpl; (rewrite decide_True by (apply (fresh_is_open _ _ Hf))); simpl;
      try destruct (chdir_ok w (cwd p1)); simpl; exact Hout.
  - simpl. rewrite decide_True by (apply (fresh_is_open _ _ Hf)). simpl. exact Hout.
Qed.

Lemma check_font_type_silent (w : World) (image_files : list str) (p : Proc) :
  stdout (snd (check_font_type w image_files p)) = stdout p.
Proof.
  unfold check_font_type, mbind, M_bind.
  pose proof (make_image_pdf_silent w image_files p) as H.
  destruct (make_image_pdf w image_files p) as [[pdf_file|e] p1]; simpl in H; [|exact H].
  unfold subprocess_check_output.
  destruct (spawn w [py "pdffonts"; pdf_file]) as [status out|]; [|exact H].
  destruct (status =? 0)%Z; [|exact H].
  unfold output_pattern_split. destruct (to_str w out); exact H.
Qed.

Lemma format_label (label : str) (type : option str) (log_level font_type : str) :
  str_format label_template (main_locals (Some label) type log_level font_type)
  = Return (labelled label font_type).
Proof.
  unfold label_template, main_locals, labelled. simpl.
  rewrite lookup_insert_eq.
  rewrite lookup_insert_ne by discriminate. rewrite lookup_insert_eq.
  rewrite app_nil_r. reflexivity.
Qed.

(** Without a filter every font type is printed, each under the name that
    [f] was left bound to. *)
Lemma report_unfiltered (label : str) (type : option str) (log_level : str)
    (font_types : list str) :
  ∀ p, report None (Some label) type log_level font_types p
       = (Return tt, print_all (List.map (labelled label) font_types) p).
Proof.
  induction font_types as [|t rest IH]; intros p.
  - simpl. unfold print_all. rewrite app_nil_r. destruct p; reflexivity.
  - change (report None (Some label) type log_level (t :: rest) p)
      with (((line ← lift_outcome
                      (str_format label_template
                         (main_locals (Some label) type log_level t));
              print line);;
             report None (Some label) type log_level rest) p).
    unfold mbind, M_bind, lift_outcome. rewrite format_label. unfold print.
    rewrite IH. unfold print_all. simpl. rewrite <- app_assoc. reflexivity.
Qed.

(** When the list is not empty the loop binds [f] at least once. *)
Lemma expand_binds_f {A} (val : A -> str) (mk : str -> A) (globber : str -> list str)
    (fuel : nat) (l : list A) (it : iteration A) :
  l ≠ [] → expand val mk globber fuel l = Some (Return it) → is_Some (last (examined it)).
Proof.
  intros Hne Hloop. unfold expand in Hloop.
  set (start := {| items := l; pos := 0%nat; examined := [] |}) in *.
  assert (Hstep : ∀ it0 it1 : iteration A,
             it0 = start ∨ examined it0 ≠ [] →
             loop_step val mk globber it0 = Some (Return it1) →
             it1 = start ∨ examined it1 ≠ []).
  { intros it0 it1 _ Hs. right. unfold loop_step in Hs.
    destruct (items it0 !! pos it0) as [f|]; [|discriminate]. simpl in Hs.
    destruct (has_wildcard (val f));
      [destruct (list_remove val (val f) (items it0)); [|discriminate]|];
      injection Hs as <-; simpl; intros Hnil; apply app_eq_nil in Hnil as [_ Hnil];
      discriminate. }
  destruct (loop_invariant val mk globber _ Hstep fuel start it (or_introl eq_refl) Hloop)
    as [[->|Hex] Hend].
  - destruct l as [|x l]; [congruence|discriminate Hend].
  - apply last_is_Some. exact Hex.
Qed.

(** C6: with at least one image argument and no filter, there is one label,
    the last name that the wildcard loop bound [f] to, such that whatever
    the run prints is a list of lines under that label; and when the
    pipeline returns font types, the run prints one such line per font
    type, whichever image the font comes from. *)
Theorem report_label_is_last_examined
    (w : World) (fuel : nat) (image_files : list str) (type : option str)
    (ignorecase : bool) (log_level : str) (p : Proc) (it : iteration str) :
  image_files ≠ [] →
  truthy type = false →
  expand_wildcards w fuel image_files = Some (Return it) →
  ∃ label,
    last (examined it) = Some label ∧
    (∀ r p', main w fuel image_files type ignorecase log_level p = Some (r, p') →
             ∃ font_types,
               stdout p' = stdout p ++ List.map (labelled label) font_types) ∧
    (∀ font_types p1,
        known_level w log_level = true →
        check_font_type w (items it) p = (Return font_types, p1) →
        main w fuel image_files type ignorecase log_level p
        = Some (Return tt, print_all (List.map (labelled label) font_types) p1)).
Proof.
  intros Hne Htype Hloop.
  destruct (expand_binds_f id id (glob w) fuel image_files it Hne Hloop) as [label Hlast].
  exists label. split; [exact Hlast|].
  assert (Hrun : ∀ q, (font_pattern ← compile_filter w type ignorecase;
                       font_types ← check_font_type w (items it);
                       report font_pattern (last (examined it)) type log_level font_types) q
                      = match check_font_type w (items it) q with
                        | (Return font_types, q1) =>
                            (Return tt, print_all (List.map (labelled label) font_types) q1)
                        | (Raise e, q1) => (Raise e, q1)
                        end).
  { intros q. unfold compile_filter. rewrite Htype, Hlast. unfold mbind, M_bind, mret, M_ret.
    destruct (check_font_type w (items it) q) as [[font_types|e] q1]; [|reflexivity].
    apply report_unfiltered. }
  split.
  - intros r p' Hmain. unfold main in Hmain.
    destruct (known_level w log_level); simpl in Hmain.
    + rewrite Hloop, Hrun in Hmain.
      pose proof (check_font_type_silent w (items it) p) as Hsilent.
      destruct (check_font_type w (items it) p) as [[font_types|e] p1];
        simpl in Hsilent; injection Hmain as <- <-.
      * exists font_types. simpl. rewrite Hsilent. reflexivity.
      * exists []. simpl. rewrite app_nil_r. exact Hsilent.
    + injection Hmain as <- <-. exists []. simpl. rewrite app_nil_r. reflexivity.
  - intros font_types p1 Hlevel Hfonts. unfold main.
    rewrite Hlevel, Hloop. simpl. rewrite Hrun, Hfonts. reflexivity.
Qed.

Lemma report_label_is_last_examined_witness :
  ∃ label,
    last [py "a.png"; py "*.jpg"; py "c.jpg"] = Some label ∧
    (∀ r p', main (demo_world listing_Type1C 0 true) 10 [py "a.png"; py "*.jpg"]
                  None false (py "INFO") demo_proc = Some (r, p') →
             ∃ font_types,
               stdout p' = stdout demo_proc ++ List.map (labelled label) font_types) ∧
    (∀ font_types p1,
        known_level (demo_world listing_Type1C 0 true) (py "INFO") = true →
        check_font_type (demo_world listing_Type1C 0 true)
          [py "a.png"; py "b.jpg"; py "c.jpg"] demo_proc = (Return font_types, p1) →
        main (demo_world listing_Type1C 0 true) 10 [py "a.png"; py "*.jpg"]
             None false (py "INFO") demo_proc
        = Some (Return tt, print_all (List.map (labelled label) font_types) p1)).
Proof.
  apply (report_label_is_last_examined (demo_world listing_Type1C 0 true) 10
           [py "a.png"; py "*.jpg"] None false (py "INFO") demo_proc
           {| items := [py "a.png"; py "b.jpg"; py "c.jpg"]; pos := 3;
              examined := [py "a.png"; py "*.jpg"; py "c.jpg"] |}).
  - discriminate.
  - reflexivity.
  - vm_compute. reflexivity.
Defined.

(** C7: with the arguments [a.png] and [*.jpg], where [*.jpg] matches
    [b.jpg] and [c.jpg], the loop ends (three turns are enough) with the
    list [a.png], [b.jpg], [c.jpg], and that list is what [main] hands to
    [check_font_type]. *)
Theorem wildcard_expansion_example
    (w : World) (fuel : nat) (type : option str) (ignorecase : bool)
    (log_level : str) (p : Proc) :
  glob w (py "*.jpg") = [py "b.jpg"; py "c.jpg"] →
  (3 ≤ fuel)%nat →
  (∃ it, expand_wildcards w fuel [py "a.png"; py "*.jpg"] = Some (Return it) ∧
         items it = [py "a.png"; py "b.jpg"; py "c.jpg"]) ∧
  (known_level w log_level = true →
   main w fuel [py "a.png"; py "*.jpg"] type ignorecase log_level p
   = Some ((font_pattern ← compile_filter w type ignorecase;
            font_types ← check_font_type w [py "a.png"; py "b.jpg"; py "c.jpg"];
            report font_pattern (Some (py "c.jpg")) type log_level font_types) p)).
Proof.
  intros Hglob Hfuel.
  assert (Hloop : expand_wildcards w fuel [py "a.png"; py "*.jpg"]
                  = Some (Return {| items := [py "a.png"; py "b.jpg"; py "c.jpg"];
                                    pos := 3;
                                    examined := [py "a.png"; py "*.jpg"; py "c.jpg"] |})).
  { unfold expand_wildcards, expand.
    apply (loop_more_fuel id id (glob w) 3 fuel _ _ Hfuel).
    generalize dependent (glob w). intros g Hglob.
    vm_compute in Hglob. vm_compute. rewrite Hglob. vm_compute. reflexivity. }
  split.
  - eexists. split; [exact Hloop|reflexivity].
  - intros Hlevel. unfold main. rewrite Hlevel, Hloop. reflexivity.
Qed.

Lemma wildcard_expansion_example_witness :
  (∃ it, expand_wildcards (demo_world [] 0 true) 5 [py "a.png"; py "*.jpg"]
         = Some (Return it) ∧
         items it = [py "a.png"; py "b.jpg"; py "c.jpg"]) ∧
  (known_level (demo_world [] 0 true) (py "INFO") = true →
   main (demo_world [] 0 true) 5 [py "a.png"; py "*.jpg"] None false (py "INFO") demo_proc
   = Some ((font_pattern ← compile_filter (demo_world [] 0 true) None false;
            font_types ← check_font_type (demo_world [] 0 true)
                           [py "a.png"; py "b.jpg"; py "c.jpg"];
            report font_pattern (Some (py "c.jpg")) None (py "INFO") font_types)
             demo_proc)).
Proof.
  apply (wildcard_expansion_example (demo_world [] 0 true) 5 None false (py "INFO")
           demo_proc).
  - vm_compute. reflexivity.
  - lia.
Defined.

(** ** Entries that the loop passes over *)

(** X20: the arguments up to the first one with a wildcard are examined
    in order; that one is examined too (and so removed and expanded)
    whenever the loop ends. *)
Lemma first_wildcard_examined (w : World) (l : list str) (i : nat) (a : str) :
  l !! i = Some a →
  (∀ j x, (j < i)%nat → l !! j = Some x → has_wildcard x = false) →
  ∀ fuel it, expand_tagged w fuel l = Some (Return it) → (Arg i, a) ∈ examined it.
Proof.
  intros Ha Hplain fuel it Hloop. unfold expand_tagged, expand in Hloop.
  assert (Hgo : ∀ d k fuel,
             (k + d = i)%nat →
             loop snd (fun x => (Globbed, x)) (glob w) fuel
               {| items := tag_args l; pos := k; examined := take k (tag_args l) |}
             = Some (Return it) →
             (Arg i, a) ∈ examined it).
  { clear fuel Hloop. induction d as [|d IH]; intros k fuel Hk Hloop.
    - assert (k = i) by lia. subst k.
      assert (Ht : tag_args l !! i = Some (Arg i, a))
        by (rewrite tag_args_lookup, Ha; reflexivity).
      destruct fuel as [|fuel]; simpl in Hloop; unfold loop_step in Hloop;
        simpl in Hloop; rewrite Ht in Hloop; simpl in Hloop;
        destruct (has_wildcard a);
        try (destruct (list_remove snd a (tag_args l)) as [l'|]);
        try discriminate Hloop;
        (apply (loop_invariant snd (fun x => (Globbed, x)) (glob w)
                  (fun it0 => (Arg i, a) ∈ examined it0)) in Hloop as [H _];
         [exact H
         |intros it0 it1 Hin Hs; unfold loop_step in Hs;
          destruct (items it0 !! pos it0) as [f|]; [|discriminate]; simpl in Hs;
          destruct (has_wildcard f.2);
            [destruct (list_remove snd f.2 (items it0)); [|discriminate]|];
            injection Hs as <-; simpl; apply elem_of_app; left; exact Hin
         |simpl; apply elem_of_app; right; apply list_elem_of_singleton; reflexivity]).
    - assert (Hlt : (k < i)%nat) by lia.
      destruct (lookup_lt_is_Some_2 l k) as [x Hx].
      { apply lookup_lt_Some in Ha. lia. }
      assert (Ht : tag_args l !! k = Some (Arg k, x))
        by (rewrite tag_args_lookup, Hx; reflexivity).
      destruct fuel as [|fuel]; simpl in Hloop; unfold loop_step in Hloop;
        simpl in Hloop; rewrite Ht in Hloop; simpl in Hloop;
        rewrite (Hplain k x Hlt Hx) in Hloop; [discriminate|].
      rewrite <- (take_S_r _ _ _ Ht) in Hloop.
      apply (IH (S k) fuel); [lia|exact Hloop]. }
  apply (Hgo i 0%nat fuel); [lia|]. rewrite take_0. exact Hloop.
Qed.

(** With three wildcard arguments that match nothing, the first is removed,
    the second is passed over, and the third is examined and removed: the
    second entry of the pair [*a], [*b] is expanded (to nothing). *)
Lemma second_of_a_pair_examined :
  expand_wildcards (demo_world [] 0 true) 10 [py "*x"; py "*a"; py "*b"]
  = Some (Return {| items := [py "*a"]; pos := 2;
                    examined := [py "*x"; py "*b"] |}).
Proof. vm_compute. reflexivity. Qed.

(** C10, as the code has it: when the loop examines an argument that holds
    a wildcard, the argument after it on the command line is never examined,
    and its name is in the list when the loop ends; and the argument two
    places after it, if there is one, is examined in its turn. *)
Theorem wildcard_removal_skips_next
    (w : World) (fuel : nat) (l : list str) (it : iteration (origin * str))
    (i : nat) (a b : str) :
  expand_tagged w fuel l = Some (Return it) →
  l !! i = Some a →
  l !! S i = Some b →
  has_wildcard a = true →
  (Arg i, a) ∈ examined it →
  (∀ x, (Arg (S i), x) ∉ examined it) ∧
  (∃ it', expand_wildcards w fuel l = Some (Return it') ∧ b ∈ items it') ∧
  (∀ c, l !! S (S i) = Some c → (Arg (S (S i)), c) ∈ examined it).
Proof.
  intros Hloop Ha Hb Hwild Hseen.
  unfold expand_tagged, expand in Hloop.
  destruct (loop_invariant snd (fun x => (Globbed, x)) (glob w)
              (skip_inv l i a b)
              (skip_inv_step (glob w) l i a b Hb Hwild)
              fuel _ it (skip_inv_start l i a b) Hloop)
    as [(n & gs & _ & _ & _ & Hskip) _].
  destruct (Hskip Hseen) as (_ & Hno & Hbefore).
  split; [exact Hno|]. split.
  - exists (untag it). split.
    + rewrite expand_untag. unfold expand_tagged, expand. rewrite Hloop. reflexivity.
    + simpl. apply list_elem_of_fmap in Hbefore as (t & -> & Ht).
      apply list_elem_of_fmap. exists t. split; [reflexivity|].
      apply (subseteq_take (pos it)). exact Ht.
  - intros c Hc.
    destruct (loop_invariant snd (fun x => (Globbed, x)) (glob w)
                (resume_inv l i a c)
                (resume_inv_step (glob w) l i a c Hc Hwild)
                fuel _ it (resume_inv_start l i a c) Hloop)
      as [Hinv Hend].
    exact (resume_inv_end (glob w) l i a c Hc it Hinv Hend Hseen).
Qed.

(** With the arguments [*x], [*a], [*b] and no file that matches: [*x] is
    examined, [*a] is passed over and stays in the list, [*b] is examined. *)
Lemma wildcard_removal_skips_next_witness :
  (∀ x, (Arg 1, x) ∉ [(Arg 0, py "*x"); (Arg 2, py "*b")]) ∧
  (∃ it', expand_wildcards (demo_world [] 0 true) 10 [py "*x"; py "*a"; py "*b"]
          = Some (Return it') ∧ py "*a" ∈ items it') ∧
  (∀ c, [py "*x"; py "*a"; py "*b"] !! 2%nat = Some c →
        (Arg 2, c) ∈ [(Arg 0, py "*x"); (Arg 2, py "*b")]).
Proof.
  apply (wildcard_removal_skips_next (demo_world [] 0 true) 10
           [py "*x"; py "*a"; py "*b"]
           {| items := [(Arg 1, py "*a")];
              pos := 2;
              examined := [(Arg 0, py "*x"); (Arg 2, py "*b")] |}
           0 (py "*x") (py "*a")).
  - vm_compute. reflexivity.
  - reflexivity.
  - reflexivity.
  - reflexivity.
  - apply list_elem_of_here.
Defined.

(** * Further properties of the script *)

(** ** Splitting the listing into chunks *)

Lemma split_from_concat (s : str) :
  ∀ cur, concat (split_from false cur s) = cur ++ List.filter (fun c => negb (is_eol c)) s
         ∧ concat (split_from true [] s) = List.filter (fun c => negb (is_eol c)) s.
Proof.
  induction s as [|c s IH]; intros cur; simpl.
  - rewrite !app_nil_r. auto.
  - destruct (is_eol c); simpl.
    + destruct (IH []) as [_ H2]. rewrite H2. auto.
    + destruct (IH (cur ++ [c])) as [H1 _]. destruct (IH [c]) as [H1' _].
      simpl in H1'. rewrite H1, H1', <- app_assoc. auto.
Qed.

Lemma split_from_no_eol (s : str) :
  ∀ in_sep cur,
    Forall (fun c => is_eol c = false) cur →
    Forall (Forall (fun c => is_eol c = false)) (split_from in_sep cur s).
Proof.
  induction s as [|c s IH]; intros in_sep cur Hcur; simpl.
  - constructor; [exact Hcur|constructor].
  - destruct (is_eol c) eqn:Hc.
    + destruct in_sep; [apply IH; constructor|].
      constructor; [exact Hcur|apply IH; constructor].
    + apply IH. apply Forall_app. split; [exact Hcur|]. constructor; [exact Hc|constructor].
Qed.

(** X1: the chunks hold no line break, and put end to end they are the text
    without its line breaks: nothing but line breaks is lost by the split. *)
Theorem re_split_eol_content (s : str) :
  Forall (Forall (fun c => is_eol c = false)) (re_split_eol s) ∧
  concat (re_split_eol s) = List.filter (fun c => negb (is_eol c)) s.
Proof.
  split.
  - apply split_from_no_eol. constructor.
  - destruct (split_from_concat s []) as [H _]. exact H.
Qed.

(** After a separator, and while a non-empty chunk is being read, every
    chunk but the last is non-empty. *)
Lemma split_from_inner (s : str) :
  ∀ in_sep cur i,
    (in_sep = true ∨ cur ≠ []) →
    (S i < length (split_from in_sep cur s))%nat →
    split_from in_sep cur s !! i ≠ Some [].
Proof.
  induction s as [|c s IH]; intros in_sep cur i Hstate Hlen; simpl in *.
  - lia.
  - destruct (is_eol c).
    + destruct in_sep.
      * apply IH; auto.
      * destruct Hstate as [Hf|Hne]; [discriminate|].
        destruct i as [|i]; simpl; [congruence|].
        apply IH; [auto|simpl in Hlen; lia].
    + apply IH; [right; intros H; apply app_eq_nil in H as [_ H]; discriminate|exact Hlen].
Qed.

(** X2: [output_pattern.split] always returns at least one chunk, and only
    the first and the last chunk can be empty (a run of line breaks is one
    separator). *)
Theorem re_split_eol_shape (s : str) :
  re_split_eol s ≠ [] ∧
  ∀ i, (0 < i)%nat → (S i < length (re_split_eol s))%nat → re_split_eol s !! i ≠ Some [].
Proof.
  unfold re_split_eol. split.
  - destruct s as [|c s]; simpl; [discriminate|].
    destruct (is_eol c); [discriminate|].
    generalize [c]. clear c. induction s as [|c s IH]; intros cur; simpl; [discriminate|].
    destruct (is_eol c); [discriminate|apply IH].
  - intros i Hi Hlen. destruct s as [|c s]; simpl in *; [lia|].
    destruct (is_eol c).
    + destruct i as [|i]; [lia|]. simpl. apply split_from_inner; [auto|simpl in Hlen; lia].
    + apply split_from_inner; [right; discriminate|exact Hlen].
Qed.

(** ** Changing an extension *)

Lemma rfind_None (c : N) (p : str) : rfind c p = None ↔ c ∉ p.
Proof.
  induction p as [|x p IH]; simpl.
  - split; [intros _ H; inversion H|reflexivity].
  - destruct (rfind c p) as [i|] eqn:Hr.
    + split; [discriminate|]. intros Hn. exfalso.
      assert (Hp : c ∉ p) by (intros H; apply Hn; right; exact H).
      apply IH in Hp. discriminate.
    + destruct (N.eqb_spec x c) as [->|Hne].
      * split; [discriminate|]. intros Hn. exfalso. apply Hn. left.
      * split; [|reflexivity]. intros _ Hin.
        apply elem_of_cons in Hin as [->|Hin]; [congruence|].
        destruct IH as [IH _]. exact (IH eq_refl Hin).
Qed.

Lemma rfind_app (c : N) (p q : str) :
  rfind c (p ++ q) =
  match rfind c q with
  | Some i => Some (length p + i)%nat
  | None => rfind c p
  end.
Proof.
  induction p as [|x p IH]; simpl.
  - destruct (rfind c q); reflexivity.
  - rewrite IH. destruct (rfind c q); reflexivity.
Qed.

Lemma rfind_lt (c : N) (p : str) (i : nat) : rfind c p = Some i → (i < length p)%nat.
Proof.
  revert i. induction p as [|x p IH]; intros i H; simpl in *; [discriminate|].
  destruct (rfind c p) as [j|].
  - injection H as <-. specialize (IH j eq_refl). lia.
  - destruct (x =? c); [injection H as <-; lia|discriminate].
Qed.

(** Where the last path component starts. *)
Lemma filename_index_le (fl : flavour) (p : str) :
  (filename_index fl p ≤ length p)%nat.
Proof.
  assert (H : ∀ c, (index_after (rfind c p) ≤ length p)%nat).
  { intros c. destruct (rfind c p) as [i|] eqn:H; simpl; [|lia].
    apply rfind_lt in H. lia. }
  destruct fl; simpl; [apply H|].
  pose proof (H 92). pose proof (H 47). lia.
Qed.

Lemma no_sep_rfind (fl : flavour) (c : N) (q : str) :
  is_sep fl c = true → no_sep fl q → rfind c q = None.
Proof.
  intros Hc Hq. apply rfind_None. intros Hin.
  unfold no_sep in Hq. rewrite Forall_forall in Hq.
  specialize (Hq c Hin). congruence.
Qed.

Lemma filename_index_app (fl : flavour) (p q : str) :
  no_sep fl q → filename_index fl (p ++ q) = filename_index fl p.
Proof.
  intros Hq. destruct fl; simpl; rewrite !rfind_app.
  - rewrite (no_sep_rfind Posix 47 q eq_refl Hq). reflexivity.
  - rewrite (no_sep_rfind Windows 47 q eq_refl Hq),
      (no_sep_rfind Windows 92 q eq_refl Hq). reflexivity.
Qed.

Lemma no_sep_dot (fl : flavour) : no_sep fl [46].
Proof. apply Forall_singleton. destruct fl; reflexivity. Qed.

Lemma splitext_with_extension (fl : flavour) (dir name e : str) :
  no_sep fl name → (∃ c, c ∈ name ∧ c ≠ 46) → 46 ∉ e → no_sep fl e →
  splitext fl (dir ++ name ++ py "." ++ e) = (dir ++ name, py "." ++ e).
Proof.
  intros Hslash (c & Hc & Hdot) He Hes. unfold splitext.
  change (py ".") with [46].
  assert (Hsep : filename_index fl (dir ++ name ++ [46] ++ e) = filename_index fl dir).
  { rewrite filename_index_app; [reflexivity|].
    apply Forall_app. split; [exact Hslash|].
    apply Forall_app. split; [apply no_sep_dot|exact Hes]. }
  assert (Hlast : rfind 46 (dir ++ name ++ [46] ++ e) = Some (length (dir ++ name))).
  { rewrite (app_assoc dir name), rfind_app, rfind_app.
    apply rfind_None in He. rewrite He. simpl. f_equal. lia. }
  rewrite Hsep, Hlast.
  pose proof (filename_index_le fl dir) as Hfi.
  set (fi := filename_index fl dir) in *.
  rewrite (app_assoc dir name).
  assert (Hle : (fi <=? length (dir ++ name))%nat = true).
  { apply Nat.leb_le. rewrite length_app. lia. }
  rewrite Hle. simpl.
  assert (Hex : existsb (fun c : N => negb (c =? 46))
                  (take (length (dir ++ name) - fi)
                     (drop fi ((dir ++ name) ++ [46] ++ e))) = true).
  { apply existsb_exists. exists c. split.
    - apply list_elem_of_In.
      rewrite drop_app_le by (rewrite length_app; lia).
      rewrite take_app_length' by (rewrite length_drop; reflexivity).
      rewrite drop_app_le by lia. apply elem_of_app. right. exact Hc.
    - apply negb_true_iff, N.eqb_neq. exact Hdot. }
  simpl in Hex. rewrite Hex.
  rewrite take_app_length, drop_app_length. reflexivity.
Qed.

(** X3: when the last path component has an extension (a non-dot character,
    then a dot, then characters that are neither dots nor separators),
    [convert_ext] replaces just that extension, under [posixpath] and under
    [ntpath], each with its own separators. *)
Theorem convert_ext_replaces (fl : flavour) (dir name e ext : str) :
  no_sep fl name → (∃ c, c ∈ name ∧ c ≠ 46) → 46 ∉ e → no_sep fl e →
  convert_ext fl (dir ++ name ++ py "." ++ e) ext = dir ++ name ++ py "." ++ ext.
Proof.
  intros H1 H2 H3 H4. unfold convert_ext.
  rewrite (splitext_with_extension fl dir name e H1 H2 H3 H4). simpl.
  rewrite <- app_assoc. reflexivity.
Qed.

Lemma not_in_py (c : N) (s : string) :
  forallb (fun x => negb (x =? c)) (py s) = true → c ∉ py s.
Proof.
  intros H Hin. rewrite forallb_forall in H.
  apply list_elem_of_In in Hin. specialize (H c Hin).
  rewrite N.eqb_refl in H. discriminate.
Qed.

Lemma no_sep_py (fl : flavour) (s : string) :
  forallb (fun x => negb (is_sep fl x)) (py s) = true → no_sep fl (py s).
Proof.
  intros H. rewrite forallb_forall in H. apply Forall_forall. intros c Hin.
  apply list_elem_of_In in Hin. apply negb_true_iff, H, Hin.
Qed.

Lemma convert_ext_replaces_witness :
  convert_ext Posix (py "/tmp/tmpq1w2e3/" ++ py "tmpa9b8c7" ++ py "." ++ py "txt") (py "pdf")
  = py "/tmp/tmpq1w2e3/" ++ py "tmpa9b8c7" ++ py "." ++ py "pdf" ∧
  convert_ext Windows (py "C:\Temp\tmpq1.w2e3\" ++ py "tmpa9b8c7" ++ py "." ++ py "txt")
    (py "pdf")
  = py "C:\Temp\tmpq1.w2e3\" ++ py "tmpa9b8c7" ++ py "." ++ py "pdf".
Proof.
  split.
  - apply (convert_ext_replaces Posix (py "/tmp/tmpq1w2e3/") (py "tmpa9b8c7") (py "txt")
             (py "pdf")).
    + apply no_sep_py. reflexivity.
    + exists 116. split; [apply list_elem_of_here|discriminate].
    + apply not_in_py. reflexivity.
    + apply no_sep_py. reflexivity.
  - apply (convert_ext_replaces Windows (py "C:\Temp\tmpq1.w2e3\") (py "tmpa9b8c7")
             (py "txt") (py "pdf")).
    + apply no_sep_py. reflexivity.
    + exists 116. split; [apply list_elem_of_here|discriminate].
    + apply not_in_py. reflexivity.
    + apply no_sep_py. reflexivity.
Defined.

(** Under [ntpath] a backslash ends the directory part: a dot before it is
    no extension dot, so nothing is replaced. *)
Lemma convert_ext_backslash :
  convert_ext Windows (py "a.b\c") (py "pdf") = py "a.b\c.pdf" ∧
  convert_ext Posix (py "a.b\c") (py "pdf") = py "a.pdf".
Proof. split; vm_compute; reflexivity. Qed.





(** X5: for a name with an extension, changing the extension twice is
    changing it once: the [.dvi] and [.pdf] names that [make_image_pdf]
    derives are siblings of the document, whichever is derived from which;
    the first new extension is to hold no dot and no separator of the
    platform. *)
Theorem convert_ext_twice (fl : flavour) (dir name e ext1 ext2 : str) :
  no_sep fl name → (∃ c, c ∈ name ∧ c ≠ 46) → 46 ∉ e → no_sep fl e →
  46 ∉ ext1 → no_sep fl ext1 →
  convert_ext fl (convert_ext fl (dir ++ name ++ py "." ++ e) ext1) ext2
  = convert_ext fl (dir ++ name ++ py "." ++ e) ext2.
Proof.
  intros H1 H2 H3 H4 H5 H6. unfold convert_ext.
  rewrite (splitext_with_extension fl dir name e H1 H2 H3 H4). cbn [fst].
  rewrite <- (app_assoc dir name).
  rewrite (splitext_with_extension fl dir name ext1 H1 H2 H5 H6). reflexivity.
Qed.

Lemma convert_ext_twice_witness :
  convert_ext Posix
    (convert_ext Posix (py "/tmp/tmpq1w2e3/" ++ py "tmpa9b8c7" ++ py "." ++ py "txt")
       (py "dvi")) (py "pdf")
  = convert_ext Posix (py "/tmp/tmpq1w2e3/" ++ py "tmpa9b8c7" ++ py "." ++ py "txt")
      (py "pdf") ∧
  convert_ext Windows
    (convert_ext Windows (py "C:\Temp\tmpq1.w2e3\" ++ py "tmpa9b8c7" ++ py "." ++ py "txt")
       (py "dvi")) (py "pdf")
  = convert_ext Windows (py "C:\Temp\tmpq1.w2e3\" ++ py "tmpa9b8c7" ++ py "." ++ py "txt")
      (py "pdf").
Proof.
  split.
  - apply (convert_ext_twice Posix (py "/tmp/tmpq1w2e3/") (py "tmpa9b8c7") (py "txt")
             (py "dvi") (py "pdf")).
    + apply no_sep_py. reflexivity.
    + exists 116. split; [apply list_elem_of_here|discriminate].
    + apply not_in_py. reflexivity.
    + apply no_sep_py. reflexivity.
    + apply not_in_py. reflexivity.
    + apply no_sep_py. reflexivity.
  - apply (convert_ext_twice Windows (py "C:\Temp\tmpq1.w2e3\") (py "tmpa9b8c7") (py "txt")
             (py "dvi") (py "pdf")).
    + apply no_sep_py. reflexivity.
    + exists 116. split; [apply list_elem_of_here|discriminate].
    + apply not_in_py. reflexivity.
    + apply no_sep_py. reflexivity.
    + apply not_in_py. reflexivity.
    + apply no_sep_py. reflexivity.
Defined.

(** ** What the parser extracts *)

Lemma run_binds {R} (U : Unicode) (r : regex) :
  ∀ (s : str) (g : groupdict) (k : str -> groupdict -> option R) (res : R),
    run U r s g k = Some res →
    ∃ t s' g', s = t ++ s' ∧ binds U r t g g' ∧ k s' g' = Some res.
Proof.
  induction r as [|c|min c|r1 IH1 r2 IH2|name r1 IH1]; intros s g k res H; simpl in H.
  - exists [], s, g. simpl. auto.
  - destruct s as [|ch s]; [discriminate|].
    destruct (cmatch U c ch) eqn:Hc; [|discriminate].
    exists [ch], s, g. simpl. repeat split; eauto.
  - apply many_sound in H as (t & s' & -> & Hlen & Hall & Hk).
    exists t, s', g. simpl. repeat split; auto.
  - apply IH1 in H as (t1 & s1 & g1 & -> & H1 & H).
    apply IH2 in H as (t2 & s2 & g2 & -> & H2 & H).
    exists (t1 ++ t2), s2, g2. rewrite <- app_assoc. repeat split; auto.
    simpl. exists t1, t2, g1. auto.
  - apply IH1 in H as (t1 & s1 & g1 & -> & H1 & H).
    exists t1, s1, (<[name := t1]> g1). repeat split; [|].
    + simpl. exists g1. auto.
    + rewrite length_app, Nat.add_sub, take_app_length in H. exact H.
Qed.

(** The shape of a parsed row: the [name] and [type] fields are consecutive
    parts of the chunk, separated by white space. *)
Lemma parsed_row (U : Unicode) (chunk : str) (m : groupdict) :
  re_match U pdffonts_parse_pattern chunk = Some m →
  ∃ name gap ty rest,
    chunk = name ++ gap ++ ty ++ rest ∧
    m !! "name"%string = Some name ∧ m !! "type"%string = Some ty ∧
    name ≠ [] ∧ gap ≠ [] ∧ Forall (fun c => is_space U c = true) gap ∧
    type_prefixed U ty = true ∧
    is_Some (m !! "emb"%string) ∧ is_Some (m !! "sub"%string) ∧
    is_Some (m !! "uni"%string) ∧ is_Some (m !! "object_id"%string).
Proof.
  unfold re_match. intros H.
  apply run_binds in H as (t & s' & g' & -> & Hb & Hk). injection Hk as <-.
  unfold pdffonts_parse_pattern in Hb.
  change (py "type") with [116; 121; 112; 101] in Hb.
  cbn [binds literal] in Hb.
  destruct Hb as (name & t1 & g1 & -> & (g0 & [[Hn1 _] ->] & ->) & Hb).
  destruct Hb as (gap & t2 & g2 & -> & [[Hn2 Hgap] ->] & Hb).
  destruct Hb as (ty & t3 & g3 & -> & (g4 & Hty & ->) & Hb).
  destruct Hty as (lit & more & h0 & -> & Hlit & [[Hn3 _] ->]).
  destruct Hlit as (l1 & r1 & h1 & -> & [(c1 & -> & Hc1) ->] & Hlit).
  destruct Hlit as (l2 & r2 & h2 & -> & [(c2 & -> & Hc2) ->] & Hlit).
  destruct Hlit as (l3 & r3 & h3 & -> & [(c3 & -> & Hc3) ->] & Hlit).
  destruct Hlit as (l4 & r4 & h4 & -> & [(c4 & -> & Hc4) ->] & [-> ->]).
  destruct Hb as (t4 & t5 & g5 & -> & [_ ->] & Hb).
  destruct Hb as (emb & t6 & g6 & -> & (g7 & [_ ->] & ->) & Hb).
  destruct Hb as (t7 & t8 & g8 & -> & [_ ->] & Hb).
  destruct Hb as (sub & t9 & g9 & -> & (g10 & [_ ->] & ->) & Hb).
  destruct Hb as (t10 & t11 & g11 & -> & [_ ->] & Hb).
  destruct Hb as (uni & t12 & g12 & -> & (g13 & [_ ->] & ->) & Hb).
  destruct Hb as (t13 & oid & g14 & -> & [_ ->] & (g15 & Hoid & ->)).
  destruct Hoid as (d1 & r & g16 & -> & [_ ->] & (ws & d2 & g17 & -> & [_ ->] & [_ ->])).
  exists name, gap, (([c1] ++ [c2] ++ [c3] ++ [c4] ++ []) ++ more),
    ((t4 ++ emb ++ t7 ++ sub ++ t10 ++ uni ++ t13 ++ d1 ++ ws ++ d2) ++ s').
  split; [rewrite <- !app_assoc; reflexivity|].
  repeat rewrite lookup_insert_ne by discriminate.
  split; [apply lookup_insert_eq|].
  split; [repeat rewrite lookup_insert_ne by discriminate; apply lookup_insert_eq|].
  split; [intros ->; simpl in Hn1; lia|].
  split; [intros ->; simpl in Hn2; lia|].
  split; [exact Hgap|].
  split.
  - destruct more as [|c5 more]; [simpl in Hn3; lia|]. simpl.
    simpl in Hc1, Hc2, Hc3, Hc4. unfold lower at 2 in Hc1. unfold lower at 2 in Hc2.
    unfold lower at 2 in Hc3. unfold lower at 2 in Hc4. simpl in Hc1, Hc2, Hc3, Hc4.
    rewrite Hc1, Hc2, Hc3, Hc4. reflexivity.
  - repeat split; eexists;
      repeat (first [apply lookup_insert_eq | rewrite lookup_insert_ne by discriminate]).
Qed.

(** X6: every font type that [check_font_type] keeps occurs as such in one
    of the chunks and starts with the letters t, y, p, e (in either case)
    followed by at least one more character; so a font that [pdffonts]
    lists as [TrueType] is never reported. *)
Theorem include_fonts_type_prefixed (U : Unicode) (output : list str) (t : str) :
  t ∈ include_fonts U output →
  (∃ chunk, chunk ∈ output ∧ occurs_in t chunk) ∧
  type_prefixed U t = true ∧ t ≠ py "TrueType".
Proof.
  intros Hin. unfold include_fonts in Hin.
  apply list_elem_of_omap in Hin as (chunk & Hchunk & Hm).
  destruct (re_match U pdffonts_parse_pattern chunk) as [m|] eqn:Hmatch; [|discriminate].
  simpl in Hm.
  apply parsed_row in Hmatch
    as (name & gap & ty & rest & -> & _ & Hty & _ & _ & _ & Hpre & _).
  rewrite Hty in Hm. injection Hm as <-.
  split; [|split].
  - eexists. split; [exact Hchunk|]. exists (name ++ gap), rest.
    rewrite <- app_assoc. reflexivity.
  - exact Hpre.
  - intros ->. vm_compute in Hpre. discriminate.
Qed.

Lemma include_fonts_type_prefixed_witness :
  (∃ chunk, chunk ∈ [chunk_truetype; chunk_type1] ∧
            occurs_in (py "Type 1               ") chunk) ∧
  type_prefixed ascii_only (py "Type 1               ") = true ∧
  py "Type 1               " ≠ py "TrueType".
Proof.
  apply (include_fonts_type_prefixed ascii_only [chunk_truetype; chunk_type1]).
  vm_compute. apply list_elem_of_here.
Defined.

(** ** A sound and complete description of the parser *)

(** X7: the parser matches a chunk exactly when the chunk starts with a row
    of the listing whose type column starts with the letters t, y, p, e. *)
Theorem parser_accepts_rows (U : Unicode) (chunk : str) :
  is_Some (re_match U pdffonts_parse_pattern chunk) ↔ row_shaped U chunk.
Proof.
  split.
  - intros [m H]. exact (match_is_row U chunk m H).
  - apply row_is_matched.
Qed.

(** ** What [check_font_type] returns *)

Lemma split_from_occurs (s : str) :
  ∀ in_sep cur x, x ∈ split_from in_sep cur s → occurs_in x (cur ++ s).
Proof.
  induction s as [|c s IH]; intros in_sep cur x Hx; simpl in Hx.
  - apply list_elem_of_singleton in Hx as ->. exists [], []. rewrite !app_nil_r. reflexivity.
  - destruct (is_eol c).
    + assert (Hrest : x ∈ split_from true [] s → occurs_in x (cur ++ c :: s)).
      { intros H. apply IH in H as (pre & post & H). simpl in H.
        exists (cur ++ c :: pre), post. rewrite H, <- app_assoc. reflexivity. }
      destruct in_sep; [auto|].
      apply elem_of_cons in Hx as [->|Hx]; [|auto].
      exists [], (c :: s). reflexivity.
    + apply IH in Hx. rewrite <- app_assoc in Hx. exact Hx.
Qed.

(** X8: when [check_font_type] returns, [pdffonts] exited with status 0,
    its output was decoded, and every font type in the result is a piece
    of the decoded text, of the form [type...] in either case. *)
Theorem check_font_type_reports_listed_types
    (w : World) (image_files : list str) (p p1 : Proc) (font_types : list str) :
  check_font_type w image_files p = (Return font_types, p1) →
  ∃ pdf_file out text,
    fst (make_image_pdf w image_files p) = Return pdf_file ∧
    spawn w [py "pdffonts"; pdf_file] = Exited 0 out ∧
    to_str w out = Some text ∧
    ∀ t, t ∈ font_types → occurs_in t text ∧ type_prefixed (unicode w) t = true.
Proof.
  unfold check_font_type, mbind, M_bind. intros H.
  destruct (make_image_pdf w image_files p) as [[pdf_file|e] p0]; [|discriminate].
  unfold subprocess_check_output in H.
  destruct (spawn w [py "pdffonts"; pdf_file]) as [status out|] eqn:Hrun; [|discriminate].
  destruct (status =? 0)%Z eqn:Hs; [|discriminate]. apply Z.eqb_eq in Hs. subst status.
  unfold output_pattern_split in H.
  destruct (to_str w out) as [text|] eqn:Htext; [|discriminate].
  injection H as <- <-.
  exists pdf_file, out, text. repeat split; auto.
  - unfold include_fonts in H. apply list_elem_of_omap in H as (chunk & Hchunk & Hm).
    destruct (re_match (unicode w) pdffonts_parse_pattern chunk) as [m|] eqn:Hmatch;
      [|discriminate].
    simpl in Hm.
    apply parsed_row in Hmatch as (name & gap & ty & rest & -> & _ & Hty & _).
    rewrite Hty in Hm. injection Hm as <-.
    apply (split_from_occurs text false []) in Hchunk as (pre & post & Heq).
    simpl in Heq. exists (pre ++ name ++ gap), (rest ++ post).
    rewrite Heq, <- !app_assoc. reflexivity.
  - unfold include_fonts in H. apply list_elem_of_omap in H as (chunk & Hchunk & Hm).
    destruct (re_match (unicode w) pdffonts_parse_pattern chunk) as [m|] eqn:Hmatch;
      [|discriminate].
    simpl in Hm.
    apply parsed_row in Hmatch as (name & gap & ty & rest & -> & _ & Hty & _ & _ & _ & Hp & _).
    rewrite Hty in Hm. injection Hm as <-. exact Hp.
Qed.

Lemma check_font_type_reports_listed_types_witness :
  ∃ pdf_file out text,
    fst (make_image_pdf (demo_world listing_Type1C 0 true) [py "fig.png"] demo_proc)
    = Return pdf_file ∧
    spawn (demo_world listing_Type1C 0 true) [py "pdffonts"; pdf_file] = Exited 0 out ∧
    to_str (demo_world listing_Type1C 0 true) out = Some text ∧
    ∀ t, t ∈ [py "Type1C"] →
         occurs_in t text ∧ type_prefixed (unicode (demo_world listing_Type1C 0 true)) t = true.
Proof.
  apply (check_font_type_reports_listed_types (demo_world listing_Type1C 0 true)
           [py "fig.png"] demo_proc
           (snd (check_font_type (demo_world listing_Type1C 0 true) [py "fig.png"] demo_proc))).
  vm_compute. reflexivity.
Defined.

(** ** What [make_image_pdf] leaves behind *)

Lemma file_write_return (w : World) (name data : str) (p p1 : Proc) :
  file_write w name data p = (Return tt, p1) →
  p1 = {| cwd := cwd p; open_fds := open_fds p;
          written := written p ++ [(name, data)]; stdout := stdout p |}.
Proof.
  unfold file_write. destruct (write_ok w _); [|discriminate].
  intros H. injection H as <-. reflexivity.
Qed.

Lemma write_figures_return (w : World) (name : str) (image_files : list str) :
  ∀ p p1,
    write_figures w name image_files p = (Return tt, p1) →
    cwd p1 = cwd p ∧ open_fds p1 = open_fds p ∧
    written p1 = written p ++
                 List.map (fun f => (name, LATEX_TEMPLATE_FIGURE_format
                                             (replace_backslash (abspath w (cwd p) f))))
                          image_files.
Proof.
  induction image_files as [|f rest IH]; intros p p1 H; simpl in H.
  - injection H as <-. rewrite app_nil_r. auto.
  - unfold mbind, M_bind in H.
    destruct (file_write w name
                (LATEX_TEMPLATE_FIGURE_format (replace_backslash (abspath w (cwd p) f))) p)
      as [[[]|e] p0] eqn:Hw; [|discriminate].
    apply file_write_return in Hw. subst p0.
    apply IH in H as (Hc & Hf & Hd). simpl in Hc, Hf, Hd.
    rewrite Hc, Hf, Hd, <- app_assoc. auto.
Qed.

Lemma write_document_return (w : World) (name : str) (image_files : list str)
    (p p1 : Proc) :
  write_document w name image_files p = (Return tt, p1) →
  written p1 = written p ++ document w (cwd p) name image_files.
Proof.
  unfold write_document, with_open, os_open, try_finally, os_close, mbind, M_bind.
  destruct (open_ok w name); [|discriminate].
  match goal with
  | |- context [file_write w name LATEX_TEMPLATE_START ?q] =>
      destruct (file_write w name LATEX_TEMPLATE_START q) as [[[]|e] p2] eqn:H1
  end.
  - apply file_write_return in H1. subst p2.
    match goal with
    | |- context [write_figures w name image_files ?q] =>
        destruct (write_figures w name image_files q) as [[[]|e] p3] eqn:H2
    end.
    + apply write_figures_return in H2 as (Hc & Hf & Hd). simpl in Hc, Hf, Hd.
      destruct (file_write w name LATEX_TEMPLATE_END p3) as [[[]|e] p4] eqn:H3.
      * apply file_write_return in H3. subst p4. simpl.
        destruct (decide _); simpl; intros H; [|discriminate].
        injection H as <-. simpl. rewrite Hd. unfold document.
        rewrite <- !app_assoc. reflexivity.
      * destruct (decide _); simpl; discriminate.
    + destruct (decide _); simpl; discriminate.
  - destruct (decide _); simpl; discriminate.
Qed.

(** What a return of [make_image_pdf] tells: both temporary names were
    made, the document was written in full, [platex] was run, and the PDF
    file was found. *)
Lemma make_image_pdf_return_inv
    (w : World) (image_files : list str) (p p1 : Proc) (pdf_file : str) :
  make_image_pdf w image_files p = (Return pdf_file, p1) →
  ∃ tmp_dir file_name,
    mkdtemp_result w = Some tmp_dir ∧ mkstemp_result w tmp_dir = Some file_name ∧
    pdf_file = convert_ext (os_path w) file_name (py "pdf") ∧
    path_exists w pdf_file = true ∧
    (∃ status out, spawn w [py "platex"; file_name] = Exited status out) ∧
    written p1 = written p ++ document w (cwd p) file_name image_files.
Proof.
  unfold_script.
  destruct (mkdtemp_result w) as [tmp_dir|] eqn:Hd; [|discriminate].
  destruct (mkstemp_result w tmp_dir) as [file_name|] eqn:Hn; [|discriminate].
  match goal with
  | |- context [write_document w file_name image_files ?q] =>
      destruct (keeps_write_document w file_name image_files q) as (Hc & Hf & Hout);
      destruct (write_document w file_name image_files q) as [[[]|e] p2] eqn:Hdoc
  end; simpl in Hc, Hf, Hout; cbn beta iota zeta.
  - apply write_document_return in Hdoc. simpl in Hdoc.
    destruct (getcwd_ok w); cbn beta iota zeta;
      [destruct (chdir_ok w tmp_dir); cbn beta iota zeta;
       [destruct (spawn w [py "platex"; file_name]) as [status out|] eqn:Hp;
        cbn beta iota zeta;
        [destruct (status =? 0)%Z; cbn beta iota zeta;
         [destruct (spawn w [py "dvipdfmx"; convert_ext (os_path w) file_name (py "dvi")]);
          cbn beta iota zeta|];
         try destruct (path_exists w (convert_ext (os_path w) file_name (py "pdf"))) eqn:Hpdf|]|]|];
      simpl; (rewrite decide_True by (apply (fresh_is_open _ _ Hf))); simpl;
      try destruct (chdir_ok w (cwd p2)); simpl;
      intros H; try discriminate H;
      injection H as <- <-; exists tmp_dir, file_name; simpl; eauto 10.
  - simpl. rewrite decide_True by (apply (fresh_is_open _ _ Hf)). simpl. discriminate.
Qed.

(** X9: a path that [make_image_pdf] returns is the name of the temporary
    document with the extension [pdf], and [os.path.exists] found it. *)
Theorem make_image_pdf_returns_existing_pdf
    (w : World) (image_files : list str) (p p1 : Proc) (pdf_file : str) :
  make_image_pdf w image_files p = (Return pdf_file, p1) →
  path_exists w pdf_file = true ∧
  ∃ tmp_dir file_name,
    mkdtemp_result w = Some tmp_dir ∧ mkstemp_result w tmp_dir = Some file_name ∧
    pdf_file = convert_ext (os_path w) file_name (py "pdf").
Proof.
  intros H. apply make_image_pdf_return_inv in H
    as (tmp_dir & file_name & Hd & Hn & Hpdf & Hex & _).
  split; [exact Hex|]. exists tmp_dir, file_name. auto.
Qed.

Lemma make_image_pdf_returns_existing_pdf_witness :
  path_exists (demo_world [] 0 true) (py "/tmp/tmpq1w2e3/tmpa9b8c7.pdf") = true ∧
  ∃ tmp_dir file_name,
    mkdtemp_result (demo_world [] 0 true) = Some tmp_dir ∧
    mkstemp_result (demo_world [] 0 true) tmp_dir = Some file_name ∧
    py "/tmp/tmpq1w2e3/tmpa9b8c7.pdf"
    = convert_ext (os_path (demo_world [] 0 true)) file_name (py "pdf").
Proof.
  apply (make_image_pdf_returns_existing_pdf (demo_world [] 0 true) [py "fig.png"]
           demo_proc
           (snd (make_image_pdf (demo_world [] 0 true) [py "fig.png"] demo_proc))).
  vm_compute. reflexivity.
Defined.

(** X10: when [make_image_pdf] returns, what it wrote is the document: the
    opening template, one figure block per image, in the order of the
    images, each with the absolute path of its image (taken in the
    caller's directory) with slashes for backslashes, and the closing
    template; all of it into the temporary file. *)
Theorem make_image_pdf_writes_document
    (w : World) (image_files : list str) (p p1 : Proc) (pdf_file : str) :
  make_image_pdf w image_files p = (Return pdf_file, p1) →
  ∃ tmp_dir file_name,
    mkdtemp_result w = Some tmp_dir ∧ mkstemp_result w tmp_dir = Some file_name ∧
    written p1 = written p ++ document w (cwd p) file_name image_files.
Proof.
  intros H. apply make_image_pdf_return_inv in H
    as (tmp_dir & file_name & Hd & Hn & _ & _ & _ & Hdoc).
  exists tmp_dir, file_name. auto.
Qed.

Lemma make_image_pdf_writes_document_witness :
  ∃ tmp_dir file_name,
    mkdtemp_result (demo_world [] 0 true) = Some tmp_dir ∧
    mkstemp_result (demo_world [] 0 true) tmp_dir = Some file_name ∧
    written (snd (make_image_pdf (demo_world [] 0 true)
                    [py "a.png"; py "dir\b.png"] demo_proc))
    = written demo_proc ++
      document (demo_world [] 0 true) (cwd demo_proc) file_name
        [py "a.png"; py "dir\b.png"].
Proof.
  apply (make_image_pdf_writes_document (demo_world [] 0 true)
           [py "a.png"; py "dir\b.png"] demo_proc _ (py "/tmp/tmpq1w2e3/tmpa9b8c7.pdf")).
  vm_compute. reflexivity.
Defined.

(** X11: the exceptions that leave [make_image_pdf].  A failure of
    [mkstemp], of opening or writing the document, or of [getcwd] never
    reaches the caller as such: the [finally] block reads [fd] or [cwd]
    before it is bound, and its [UnboundLocalError] is what the caller
    sees. *)
Theorem make_image_pdf_exceptions
    (w : World) (image_files : list str) (p : Proc) (e : exn) :
  fst (make_image_pdf w image_files p) = Raise e →
  e = OSError "mkdtemp" ∨ e = UnboundLocalError "fd" ∨ e = UnboundLocalError "cwd" ∨
  e = OSError "chdir" ∨ e = OSError "exec" ∨
  e = RuntimeError "Failed to create pdf files".
Proof.
  unfold_script.
  destruct (mkdtemp_result w) as [tmp_dir|]; [|simpl; intros [= <-]; auto].
  destruct (mkstemp_result w tmp_dir) as [file_name|]; [|simpl; intros [= <-]; auto].
  match goal with
  | |- context [write_document w file_name image_files ?q] =>
      destruct (keeps_write_document w file_name image_files q) as (Hc & Hf & Hout);
      destruct (write_document w file_name image_files q) as [[[]|e'] p2]
  end; simpl in Hc, Hf, Hout; cbn beta iota zeta.
  - destruct (getcwd_ok w); cbn beta iota zeta;
      [destruct (chdir_ok w tmp_dir); cbn beta iota zeta;
       [destruct (spawn w [py "platex"; file_name]) as [status out|]; cbn beta iota zeta;
        [destruct (status =? 0)%Z; cbn beta iota zeta;
         [destruct (spawn w [py "dvipdfmx"; convert_ext (os_path w) file_name (py "dvi")]);
          cbn beta iota zeta|];
         try destruct (path_exists w (convert_ext (os_path w) file_name (py "pdf")))|]|]|];
      simpl; (rewrite decide_True by (apply (fresh_is_open _ _ Hf))); simpl;
      try destruct (chdir_ok w (cwd p2)); simpl;
      intros H; try discriminate H; injection H as <-; auto 10.
  - simpl. rewrite decide_True by (apply (fresh_is_open _ _ Hf)). simpl.
    intros [= <-]. auto.
Qed.

Lemma make_image_pdf_exceptions_witness :
  fst (make_image_pdf (demo_world [] 0 false) [py "fig.png"] demo_proc)
  = Raise (RuntimeError "Failed to create pdf files") ∧
  (RuntimeError "Failed to create pdf files" = OSError "mkdtemp" ∨
   RuntimeError "Failed to create pdf files" = UnboundLocalError "fd" ∨
   RuntimeError "Failed to create pdf files" = UnboundLocalError "cwd" ∨
   RuntimeError "Failed to create pdf files" = OSError "chdir" ∨
   RuntimeError "Failed to create pdf files" = OSError "exec" ∨
   RuntimeError "Failed to create pdf files" = RuntimeError "Failed to create pdf files").
Proof.
  split; [vm_compute; reflexivity|].
  apply (make_image_pdf_exceptions (demo_world [] 0 false) [py "fig.png"] demo_proc).
  vm_compute. reflexivity.
Defined.

(** ** More on the wildcard loop *)

(** From an entry on without wildcards the loop only walks to the end. *)
Lemma loop_plain {A} (val : A -> str) (mk : str -> A) (globber : str -> list str)
    (l : list A) :
  ∀ (d k fuel : nat) (ex : list A),
    (length l - k = d)%nat → (d ≤ fuel)%nat →
    Forall (fun x => has_wildcard (val x) = false) (drop k l) →
    loop val mk globber fuel {| items := l; pos := k; examined := ex |}
    = Some (Return {| items := l; pos := Nat.max k (length l);
                      examined := ex ++ drop k l |}).
Proof.
  induction d as [|d IH]; intros k fuel ex Hd Hfuel Hplain.
  - assert (Hge : (length l ≤ k)%nat) by lia.
    assert (Hnone : l !! k = None) by (apply lookup_ge_None; exact Hge).
    rewrite drop_ge, app_nil_r by exact Hge.
    replace (Nat.max k (length l)) with k by lia.
    destruct fuel; simpl; unfold loop_step; simpl; rewrite Hnone; reflexivity.
  - destruct (lookup_lt_is_Some_2 l k) as [f Hf]; [lia|].
    rewrite (drop_S _ _ _ Hf) in Hplain |- *.
    inversion Hplain as [|? ? Hf0 Hrest]; subst.
    destruct fuel as [|fuel]; [lia|].
    simpl. unfold loop_step. simpl. rewrite Hf. simpl. rewrite Hf0.
    rewrite (IH (S k) fuel (ex ++ [f])) by (first [lia | exact Hrest]).
    rewrite <- app_assoc. simpl. do 3 f_equal. lia.
Qed.

(** X12: when no argument holds a wildcard (the shell expanded them, or
    there were none), the loop ends after one turn per argument and changes
    nothing: the list is the argument list, and [f] was bound to every
    argument in turn. *)
Theorem expand_without_wildcards (w : World) (fuel : nat) (image_files : list str) :
  Forall (fun x => has_wildcard x = false) image_files →
  (length image_files ≤ fuel)%nat →
  expand_wildcards w fuel image_files
  = Some (Return {| items := image_files; pos := length image_files;
                    examined := image_files |}).
Proof.
  intros Hplain Hfuel. unfold expand_wildcards, expand.
  rewrite (loop_plain id id (glob w) image_files (length image_files) 0 fuel []);
    [|lia|exact Hfuel|exact Hplain].
  simpl. reflexivity.
Qed.

Lemma expand_without_wildcards_witness :
  expand_wildcards (demo_world [] 0 true) 2 [py "a.png"; py "b.pdf"]
  = Some (Return {| items := [py "a.png"; py "b.pdf"]; pos := 2;
                    examined := [py "a.png"; py "b.pdf"] |}).
Proof.
  apply (expand_without_wildcards (demo_world [] 0 true) 2 [py "a.png"; py "b.pdf"]).
  - repeat constructor.
  - simpl. lia.
Defined.

(** X13: a single pattern as the only argument.  The list becomes the
    matches, but the first match is passed over: [f] is bound to the
    pattern and then to the matches from the second on, so that with one
    match (or none) [f] is left bound to the pattern itself. *)
Theorem expand_single_pattern (w : World) (fuel : nat) (pattern : str) :
  has_wildcard pattern = true →
  Forall (fun x => has_wildcard x = false) (glob w pattern) →
  (length (glob w pattern) ≤ fuel)%nat → (1 ≤ fuel)%nat →
  expand_wildcards w fuel [pattern]
  = Some (Return {| items := glob w pattern;
                    pos := Nat.max 1 (length (glob w pattern));
                    examined := pattern :: drop 1 (glob w pattern) |}).
Proof.
  intros Hwild Hplain Hfuel Hone. unfold expand_wildcards, expand.
  destruct fuel as [|fuel]; [lia|].
  simpl. unfold loop_step. simpl. unfold id at 1 2. rewrite Hwild.
  rewrite decide_True by reflexivity. simpl. rewrite map_id.
  change (fun x : str => x) with (@id str).
  rewrite (loop_plain id id (glob w) (glob w pattern)
             (length (glob w pattern) - 1) 1 fuel [pattern]);
    [reflexivity|reflexivity|lia|].
  apply Forall_drop. exact Hplain.
Qed.

Lemma expand_single_pattern_witness :
  expand_wildcards (demo_world [] 0 true) 2 [py "*.jpg"]
  = Some (Return {| items := glob (demo_world [] 0 true) (py "*.jpg");
                    pos := Nat.max 1 (length (glob (demo_world [] 0 true) (py "*.jpg")));
                    examined := py "*.jpg" :: drop 1 (glob (demo_world [] 0 true) (py "*.jpg")) |}).
Proof.
  apply (expand_single_pattern (demo_world [] 0 true) 2 (py "*.jpg")).
  - reflexivity.
  - vm_compute. repeat constructor.
  - vm_compute. lia.
  - lia.
Defined.

(** The entry that [f] is bound to is in the list: [remove] finds it. *)
Lemma loop_step_no_raise {A} (val : A -> str) (mk : str -> A)
    (globber : str -> list str) (it : iteration A) (e : exn) :
  loop_step val mk globber it ≠ Some (Raise e).
Proof.
  unfold loop_step. destruct (items it !! pos it) as [f|] eqn:Hf; [|discriminate].
  simpl. destruct (has_wildcard (val f)); [|discriminate].
  destruct (list_remove_present val (items it) (pos it) f Hf) as [l' ->]. discriminate.
Qed.

Lemma loop_no_raise {A} (val : A -> str) (mk : str -> A) (globber : str -> list str)
    (fuel : nat) :
  ∀ it, loop val mk globber fuel it = None ∨
        ∃ it', loop val mk globber fuel it = Some (Return it').
Proof.
  induction fuel as [|fuel IH]; intros it; simpl;
    pose proof (loop_step_no_raise val mk globber it) as Hno;
    destruct (loop_step val mk globber it) as [[it1|e]|]; eauto;
    exfalso; exact (Hno e eq_refl).
Qed.

(** X14: the [ValueError] of [image_files.remove(f)] never happens: within
    any number of turns the loop has ended normally or is still running. *)
Theorem expand_never_raises (w : World) (fuel : nat) (image_files : list str) :
  expand_wildcards w fuel image_files = None ∨
  ∃ it, expand_wildcards w fuel image_files = Some (Return it).
Proof. apply loop_no_raise. Qed.

(** ** Termination of the wildcard loop *)

Lemma wild_count_app (l k : list str) :
  wild_count (l ++ k) = (wild_count l + wild_count k)%nat.
Proof.
  unfold wild_count. induction l as [|x l IH]; simpl; [reflexivity|].
  destruct (has_wildcard x); simpl; rewrite IH; reflexivity.
Qed.

Lemma wild_count_plain (l : list str) :
  Forall (fun x => has_wildcard x = false) l → wild_count l = 0%nat.
Proof.
  unfold wild_count. induction 1 as [|x l Hx _ IH]; simpl; [reflexivity|].
  rewrite Hx. exact IH.
Qed.

Lemma wild_count_drop (n : nat) (l : list str) :
  (wild_count (drop n l) ≤ wild_count l)%nat.
Proof.
  rewrite <- (take_drop n l) at 2. rewrite wild_count_app. lia.
Qed.

Lemma wild_count_le_length (l : list str) : (wild_count l ≤ length l)%nat.
Proof.
  unfold wild_count. induction l as [|x l IH]; simpl; [lia|].
  destruct (has_wildcard x); simpl; lia.
Qed.

(** A turn of the loop of [main], on the names themselves. *)
Lemma plain_step (globber : str -> list str) (it : iteration str) (f : str) :
  items it !! pos it = Some f →
  loop_step id id globber it
  = Some (if has_wildcard f then
            match list_remove id f (items it) with
            | Some l => Return {| items := l ++ globber f; pos := S (pos it);
                                  examined := examined it ++ [f] |}
            | None => Raise (ValueError "list.remove(x): x not in list")
            end
          else Return {| items := items it; pos := S (pos it);
                         examined := examined it ++ [f] |}).
Proof.
  intros Hf. unfold loop_step. rewrite Hf. simpl. rewrite map_id. reflexivity.
Qed.

(** The loop ends once its fuel covers the entries still to come, each
    wildcard among them counted with the matches it may add. *)
Lemma loop_terminates (w : World) (l : list str) (M : nat) :
  (∀ pattern, Forall (fun x => has_wildcard x = false) (glob w pattern)) →
  Forall (fun x => (length (glob w x) ≤ M)%nat) l →
  ∀ fuel it,
    (∀ x, x ∈ drop (pos it) (items it) → has_wildcard x = true → x ∈ l) →
    (length (drop (pos it) (items it)) + M * wild_count (drop (pos it) (items it))
     ≤ fuel)%nat →
    ∃ it', loop id id (glob w) fuel it = Some (Return it').
Proof.
  intros Hglob Hbound. induction fuel as [|fuel IH]; intros it Hfrom Hfuel.
  - destruct (items it !! pos it) as [f|] eqn:Hf.
    + rewrite (drop_S _ _ _ Hf) in Hfuel. simpl in Hfuel. lia.
    + exists it. simpl. unfold loop_step. rewrite Hf. reflexivity.
  - simpl.
    destruct (items it !! pos it) as [f|] eqn:Hf;
      [|unfold loop_step; rewrite Hf; eauto].
    rewrite (plain_step _ _ _ Hf).
    pose proof (drop_S _ _ _ Hf) as Hdrop. rewrite Hdrop in Hfrom, Hfuel.
    destruct (has_wildcard f) eqn:Hwild.
    + destruct (list_remove_present id (items it) (pos it) f Hf) as [l' Hl'].
      change (id f) with f in Hl'. rewrite Hl'.
      pose proof (list_remove_drop id (items it) (pos it) f l' Hf Hl') as Hd.
      assert (Hrest : drop (S (S (pos it))) (items it) = drop 1 (drop (S (pos it)) (items it)))
        by (rewrite drop_drop; f_equal; lia).
      assert (Hf_in : f ∈ l) by (apply Hfrom; [left|exact Hwild]).
      rewrite Forall_forall in Hbound. specialize (Hbound f Hf_in).
      apply IH; simpl; rewrite drop_app, Hd, Hrest.
      * intros x Hx Hxw. apply elem_of_app in Hx as [Hx|Hx].
        -- apply Hfrom; [|exact Hxw]. right.
           apply (subseteq_drop 1). exact Hx.
        -- exfalso. apply (subseteq_drop _) in Hx.
           pose proof (Hglob f) as Hg. rewrite Forall_forall in Hg.
           rewrite (Hg x Hx) in Hxw. discriminate.
      * rewrite length_app, wild_count_app, !length_drop.
        rewrite (wild_count_plain (drop _ (glob w f)))
          by (apply Forall_drop, Hglob).
        pose proof (wild_count_drop 1 (drop (S (pos it)) (items it))) as Hwc.
        unfold wild_count at 1 in Hfuel. simpl in Hfuel. rewrite Hwild in Hfuel.
        simpl in Hfuel. fold (wild_count (drop (S (pos it)) (items it))) in Hfuel.
        rewrite length_drop in Hfuel.
        apply (Nat.mul_le_mono_l _ _ M) in Hwc.
        rewrite Nat.add_0_r, Nat.mul_succ_r in *. lia.
    + apply IH; simpl.
      * intros x Hx Hxw. apply Hfrom; [right; exact Hx|exact Hxw].
      * unfold wild_count at 1 in Hfuel. simpl in Hfuel. rewrite Hwild in Hfuel.
        fold (wild_count (drop (S (pos it)) (items it))) in Hfuel. lia.
Qed.

(** X15: when no name that [glob] returns holds a wildcard, the loop ends:
    if every argument has at most [M] matches, the arguments times [M + 1]
    turns are enough. *)
Theorem expand_terminates (w : World) (image_files : list str) (M fuel : nat) :
  (∀ pattern, Forall (fun x => has_wildcard x = false) (glob w pattern)) →
  Forall (fun x => (length (glob w x) ≤ M)%nat) image_files →
  (length image_files * S M ≤ fuel)%nat →
  ∃ it, expand_wildcards w fuel image_files = Some (Return it).
Proof.
  intros Hglob Hbound Hfuel. unfold expand_wildcards, expand.
  apply (loop_terminates w image_files M Hglob Hbound); simpl.
  - intros x Hx _. exact Hx.
  - rewrite drop_0. pose proof (wild_count_le_length image_files) as Hwc.
    apply (Nat.mul_le_mono_l _ _ M) in Hwc. rewrite Nat.mul_succ_r in Hfuel. lia.
Qed.

Lemma expand_terminates_witness :
  ∃ it, expand_wildcards (demo_world [] 0 true) 6 [py "a.png"; py "*.jpg"]
        = Some (Return it).
Proof.
  apply (expand_terminates (demo_world [] 0 true) [py "a.png"; py "*.jpg"] 2 6).
  - intros pattern. simpl. destruct (decide (pattern = py "*.jpg")); repeat constructor.
  - repeat constructor; vm_compute; lia.
  - simpl. lia.
Defined.

Lemma list_remove_length {A} (val : A -> str) (x : str) (l : list A) :
  ∀ l', list_remove val x l = Some l' → length l = S (length l').
Proof.
  induction l as [|y l IH]; intros l' H; simpl in H; [discriminate|].
  destruct (decide (val y = x)); [injection H as <-; reflexivity|].
  destruct (list_remove val x l) as [l''|]; [|discriminate].
  injection H as <-. simpl. rewrite (IH l'' eq_refl). reflexivity.
Qed.

Lemma list_remove_subseteq {A} (val : A -> str) (x : str) (l : list A) :
  ∀ l' y, list_remove val x l = Some l' → y ∈ l' → y ∈ l.
Proof.
  induction l as [|z l IH]; intros l' y H Hy; simpl in H; [discriminate|].
  destruct (decide (val z = x)); [injection H as <-; right; exact Hy|].
  destruct (list_remove val x l) as [l''|]; [|discriminate].
  injection H as <-. apply elem_of_cons in Hy as [->|Hy]; [left|right; eauto].
Qed.

(** X16: the loop need not end.  When the names at hand all hold a
    wildcard and each of them, taken as a pattern, matches two or more of
    them (files named [*a] and [?a] in the directory will do), the loop
    started on any of them is still running after any number of turns. *)
Theorem expand_can_run_forever
    (w : World) (names image_files : list str) (fuel : nat) :
  (∀ x, x ∈ names →
        has_wildcard x = true ∧ (2 ≤ length (glob w x))%nat ∧
        ∀ y, y ∈ glob w x → y ∈ names) →
  image_files ≠ [] →
  (∀ x, x ∈ image_files → x ∈ names) →
  expand_wildcards w fuel image_files = None.
Proof.
  intros Hnames Hne Hsub. unfold expand_wildcards, expand.
  assert (Hgo : ∀ fuel it,
             (pos it < length (items it))%nat →
             (∀ x, x ∈ items it → x ∈ names) →
             loop id id (glob w) fuel it = None).
  { clear fuel. induction fuel as [|fuel IH]; intros it Hpos Hin; simpl;
      destruct (lookup_lt_is_Some_2 (items it) (pos it) Hpos) as [f Hf];
      rewrite (plain_step _ _ _ Hf);
      assert (Hfn : f ∈ names) by (apply Hin, list_elem_of_lookup; eauto);
      destruct (Hnames f Hfn) as (Hwild & Hlen & Hclosed);
      rewrite Hwild;
      destruct (list_remove_present id (items it) (pos it) f Hf) as [l' Hl'];
      change (id f) with f in Hl'; rewrite Hl'; [reflexivity|].
    apply IH; simpl.
    - rewrite length_app. apply list_remove_length in Hl'. lia.
    - intros x Hx. apply elem_of_app in Hx as [Hx|Hx].
      + apply Hin. exact (list_remove_subseteq id f (items it) l' x Hl' Hx).
      + apply Hclosed. exact Hx. }
  apply Hgo; simpl.
  - destruct image_files; [congruence|simpl; lia].
  - exact Hsub.
Qed.

Lemma expand_can_run_forever_witness :
  expand_wildcards star_world 1000 [py "*a"] = None.
Proof.
  apply (expand_can_run_forever star_world [py "*a"; py "?a"] [py "*a"] 1000).
  - intros x Hx.
    apply elem_of_cons in Hx as [->|Hx];
      [|apply list_elem_of_singleton in Hx as ->];
      (split; [reflexivity|]); (split; [simpl; lia|]); intros y Hy; exact Hy.
  - discriminate.
  - intros x Hx. apply list_elem_of_singleton in Hx as ->. left.
Defined.

(** ** With a filter *)

Lemma report_filtered_silent
    (matches : str -> bool) (f type : option str) (log_level : str)
    (font_types : list str) :
  ∀ p, stdout (snd (report (Some matches) f type log_level font_types p)) = stdout p.
Proof.
  induction font_types as [|t rest IH]; intros p; simpl; [reflexivity|].
  destruct (matches t); simpl; [reflexivity|].
  unfold mbind, M_bind, mret, M_ret. apply IH.
Qed.

(** X17: with a filter (a [--type] that is not empty) no run prints
    anything: a font type that the filter passes over is not printed, and
    the first one it recognises ends the run in a [KeyError]. *)
Theorem filtered_run_prints_nothing
    (w : World) (fuel : nat) (image_files : list str) (type : option str)
    (ignorecase : bool) (log_level : str) (p p' : Proc) (r : outcome unit) :
  truthy type = true →
  main w fuel image_files type ignorecase log_level p = Some (r, p') →
  stdout p' = stdout p.
Proof.
  intros Htype Hmain. unfold main in Hmain.
  destruct (known_level w log_level); simpl in Hmain;
    [|injection Hmain as <- <-; reflexivity].
  destruct (expand_wildcards w fuel image_files) as [[it|e]|]; [| |discriminate];
    [|injection Hmain as <- <-; reflexivity].
  unfold compile_filter, mbind, M_bind, mret, M_ret, raise in Hmain.
  rewrite Htype in Hmain.
  destruct (re_compile w (default [] type) ignorecase) as [matches|];
    [|injection Hmain as <- <-; reflexivity].
  pose proof (check_font_type_silent w (items it) p) as Hsilent.
  destruct (check_font_type w (items it) p) as [[font_types|e] p1]; simpl in Hsilent;
    [|injection Hmain as <- <-; exact Hsilent].
  pose proof (report_filtered_silent matches (last (examined it)) type log_level
                font_types p1) as Hrep.
  destruct (report (Some matches) (last (examined it)) type log_level font_types p1)
    as [r' p2].
  injection Hmain as <- <-. simpl in Hrep. rewrite Hrep. exact Hsilent.
Qed.

Lemma filtered_run_prints_nothing_witness :
  stdout (snd (check_font_type (demo_world listing_Type1C 0 true) [py "fig.png"] demo_proc))
  = stdout demo_proc.
Proof.
  apply (filtered_run_prints_nothing (demo_world listing_Type1C 0 true) 10 [py "fig.png"]
           (Some (py "Type1")) false (py "INFO") demo_proc _ (Raise (KeyError "f"))).
  - reflexivity.
  - vm_compute. reflexivity.
Defined.

(** ** Paths in the document *)

(** X18: the path that goes into a figure block holds no backslash, is as
    long as the absolute path it comes from, and is that path when it held
    no backslash. *)
Theorem replace_backslash_spec (s : str) :
  (92 ∉ replace_backslash s) ∧
  length (replace_backslash s) = length s ∧
  (92 ∉ s → replace_backslash s = s).
Proof.
  unfold replace_backslash. split; [|split].
  - intros Hin. apply list_elem_of_fmap in Hin as (c & Hc & _).
    destruct (N.eqb_spec c 92); [discriminate|congruence].
  - apply length_map.
  - induction s as [|c s IH]; intros Hno; simpl; [reflexivity|].
    destruct (N.eqb_spec c 92) as [->|_]; [exfalso; apply Hno; left|].
    f_equal. apply IH. intros H. apply Hno. right. exact H.
Qed.

(** ** Arguments that the shell expanded *)

(** X19: when no argument holds a wildcard and no filter is given, a run
    whose pipeline returns font types prints one line per font type, every
    one of them under the name of the last argument. *)
Theorem main_labels_with_last_argument
    (w : World) (fuel : nat) (image_files : list str) (last_file : str)
    (type : option str) (ignorecase : bool) (log_level : str) (p p1 : Proc)
    (font_types : list str) :
  Forall (fun x => has_wildcard x = false) image_files →
  last image_files = Some last_file →
  (length image_files ≤ fuel)%nat →
  truthy type = false →
  known_level w log_level = true →
  check_font_type w image_files p = (Return font_types, p1) →
  main w fuel image_files type ignorecase log_level p
  = Some (Return tt, print_all (List.map (labelled last_file) font_types) p1).
Proof.
  intros Hplain Hlast Hfuel Htype Hlevel Hfonts. unfold main, expand_wildcards, expand.
  rewrite Hlevel.
  rewrite (loop_plain id id (glob w) image_files (length image_files) 0 fuel []);
    [|lia|exact Hfuel|exact Hplain].
  cbn [negb items examined]. rewrite drop_0, app_nil_l, Hlast.
  unfold compile_filter. rewrite Htype. unfold mbind, M_bind, mret, M_ret.
  rewrite Hfonts. rewrite report_unfiltered. reflexivity.
Qed.

Lemma main_labels_with_last_argument_witness :
  main (demo_world listing_Type1C 0 true) 2 [py "a.png"; py "b.png"] None false
       (py "INFO") demo_proc
  = Some (Return tt,
          print_all (List.map (labelled (py "b.png")) [py "Type1C"])
            (snd (check_font_type (demo_world listing_Type1C 0 true)
                    [py "a.png"; py "b.png"] demo_proc))).
Proof.
  apply (main_labels_with_last_argument (demo_world listing_Type1C 0 true) 2
           [py "a.png"; py "b.png"] (py "b.png") None false (py "INFO") demo_proc).
  - repeat constructor.
  - reflexivity.
  - simpl. lia.
  - reflexivity.
  - reflexivity.
  - vm_compute. reflexivity.
Defined.

Lemma first_wildcard_examined_witness :
  (Arg 1, py "*.jpg") ∈
  [(Arg 0, py "a.png"); (Arg 1, py "*.jpg"); (Globbed, py "c.jpg")].
Proof.
  apply (first_wildcard_examined (demo_world [] 0 true) [py "a.png"; py "*.jpg"] 1
           (py "*.jpg")) with
    (fuel := 10%nat)
    (it := {| items := [(Arg 0, py "a.png"); (Globbed, py "b.jpg"); (Globbed, py "c.jpg")];
              pos := 3;
              examined := [(Arg 0, py "a.png"); (Arg 1, py "*.jpg");
                           (Globbed, py "c.jpg")] |}).
  - reflexivity.
  - intros j x Hj Hx. destruct j as [|j]; [injection Hx as <-; reflexivity|lia].
  - vm_compute. reflexivity.
Defined.
